(** * DS18B20 1-Wire driver of the Network Module: model and properties

    A shallow embedding of [NetworkModule/DS18B20.c]: the bit-level link
    ([reset_pulse], [read_bit], [write_bit], [transmit_byte]), the CRC
    ([dallas_crc8]), the ROM search ([First], [Next], [FindDevices]), the
    sampling pass ([get_temperature]) and the formatter
    ([convert_temperature]).

    Integers are [Z] with the C conversions written out ([u8], [i16], ...).
    The port C registers and the delay primitives form the [Port] interface,
    so that the driver can be run against a simulated bus.  Loops whose exit
    depends on data carry a fuel argument and return [None] when it runs out;
    the totality lemmas show that the fuel given by the callers is enough. *)

From Stdlib Require Import ZArith Lia Bool Ascii String.
From stdpp Require Import base option list.

Local Open Scope Z_scope.

(** ** C integer conversions *)

Definition u8 (z : Z) : Z := z mod 256.
Definition u16 (z : Z) : Z := z mod 65536.
Definition u32 (z : Z) : Z := z mod 4294967296.
Definition i16 (z : Z) : Z := (z + 32768) mod 65536 - 32768.
Definition i32 (z : Z) : Z := (z + 2147483648) mod 4294967296 - 2147483648.

(** C truth value of a comparison. *)
Definition c_bool (b : bool) : Z := if b then 1 else 0.

(** Character constants are [uint8_t] codes. *)
Definition chr (c : ascii) : Z := Z.of_N (N_of_ascii c).

(** ** Arrays

    One- and two-dimensional [uint8_t] arrays are lists; an element that was
    never stored reads as 0.  Every index the driver uses on these lists is
    in range, except the two accesses that are modelled apart ([past_ROM]
    and [FoundROM_overrun] below). *)

Definition get1 (a : list Z) (i : Z) : Z := default 0 (a !! Z.to_nat i).
Definition set1 (a : list Z) (i : Z) (v : Z) : list Z := <[Z.to_nat i := v]> a.
Definition get2 (a : list (list Z)) (i j : Z) : Z :=
  get1 (default [] (a !! Z.to_nat i)) j.
Definition set2 (a : list (list Z)) (i j : Z) (v : Z) : list (list Z) :=
  <[Z.to_nat i := set1 (default [] (a !! Z.to_nat i)) j v]> a.

(** ** The port: GPIO registers and delays

    IO 16 is port C bit 6.  [PC_ODR] and [PC_DDR] are read back, [PC_IDR] is
    sampled from the pins (which may change the world: time passes, a
    scripted input advances). *)

Class Port (W : Type) := {
  PC_ODR : W -> Z;
  PC_DDR : W -> Z;
  set_PC_ODR : Z -> W -> W;
  set_PC_DDR : Z -> W -> W;
  PC_IDR : W -> Z * W;
  wait_timer : Z -> W -> W;
  nop : W -> W
}.

(** ** Globals of DS18B20.c (and the two arrays it imports) *)

Record Globals := mkGlobals {
  ROM : list Z;                 (* uint8_t ROM[8] *)
  past_ROM : Z;                 (* a byte next to the driver's variables
                                   that the driver never writes: what
                                   [ROM[8]] in [Next] reads when the linker
                                   puts such a byte at address ROM + 8 *)
  lastDiscrep : Z;              (* uint8_t *)
  doneFlag : Z;                 (* uint8_t *)
  FoundROM : list (list Z);     (* uint8_t FoundROM[5][8] *)
  FoundROM_overrun : list (Z * Z * Z);
                                (* a log of the stores to FoundROM[r][c]
                                   with r >= 5, in program order: they land
                                   behind the table, on whatever lies there;
                                   the model follows the code up to the
                                   first of them *)
  numROMs : Z;                  (* int *)
  DS18B20_scratch : list (list Z); (* uint8_t DS18B20_scratch[5][2] *)
  OctetArray : list Z           (* uint8_t OctetArray[11] *)
}.

Definition with_ROM (v : list Z) (g : Globals) : Globals :=
  mkGlobals v (past_ROM g) (lastDiscrep g) (doneFlag g) (FoundROM g)
            (FoundROM_overrun g) (numROMs g) (DS18B20_scratch g) (OctetArray g).
Definition with_lastDiscrep (v : Z) (g : Globals) : Globals :=
  mkGlobals (ROM g) (past_ROM g) v (doneFlag g) (FoundROM g)
            (FoundROM_overrun g) (numROMs g) (DS18B20_scratch g) (OctetArray g).
Definition with_doneFlag (v : Z) (g : Globals) : Globals :=
  mkGlobals (ROM g) (past_ROM g) (lastDiscrep g) v (FoundROM g)
            (FoundROM_overrun g) (numROMs g) (DS18B20_scratch g) (OctetArray g).
Definition with_FoundROM (v : list (list Z)) (g : Globals) : Globals :=
  mkGlobals (ROM g) (past_ROM g) (lastDiscrep g) (doneFlag g) v
            (FoundROM_overrun g) (numROMs g) (DS18B20_scratch g) (OctetArray g).
Definition with_FoundROM_overrun (v : list (Z * Z * Z)) (g : Globals) : Globals :=
  mkGlobals (ROM g) (past_ROM g) (lastDiscrep g) (doneFlag g) (FoundROM g)
            v (numROMs g) (DS18B20_scratch g) (OctetArray g).
Definition with_numROMs (v : Z) (g : Globals) : Globals :=
  mkGlobals (ROM g) (past_ROM g) (lastDiscrep g) (doneFlag g) (FoundROM g)
            (FoundROM_overrun g) v (DS18B20_scratch g) (OctetArray g).
Definition with_scratch (v : list (list Z)) (g : Globals) : Globals :=
  mkGlobals (ROM g) (past_ROM g) (lastDiscrep g) (doneFlag g) (FoundROM g)
            (FoundROM_overrun g) (numROMs g) v (OctetArray g).
Definition with_OctetArray (v : list Z) (g : Globals) : Globals :=
  mkGlobals (ROM g) (past_ROM g) (lastDiscrep g) (doneFlag g) (FoundROM g)
            (FoundROM_overrun g) (numROMs g) (DS18B20_scratch g) v.

(** [FoundROM[r][c] = v]: the table has rows 0..4. *)
Definition store_FoundROM (r c v : Z) (g : Globals) : Globals :=
  if r <? 5 then with_FoundROM (set2 (FoundROM g) r c v) g
  else with_FoundROM_overrun (FoundROM_overrun g ++ [(r, c, v)]) g.

(** ** dallas_crc8 *)

Definition crc8_bit (st : Z * Z) : Z * Z :=
  let '(crc, inbyte) := st in
  let mix := u8 (Z.land (Z.lxor crc inbyte) 0x01) in
  let crc := Z.shiftr crc 1 in
  let crc := if mix =? 0 then crc else Z.lxor crc 0x8C in
  (crc, Z.shiftr inbyte 1).

Definition crc8_byte (crc inbyte : Z) : Z :=
  fst (Nat.iter 8 crc8_bit (crc, inbyte)).

(** [size] arrives as a [uint8_t]. *)
Definition dallas_crc8 (data : list Z) (size : Z) : Z :=
  foldl (fun crc i => crc8_byte crc (get1 data i)) 0 (seqZ 0 (u8 size)).

(** The locals of [Next] that live across the turns of its loop: the ROM
    bit index [m], the byte index [n], the bit mask [k], the discrepancy
    marker and the output bit [g]. *)
Record NextLocals := mkLocals {
  loc_m : Z;
  loc_n : Z;
  loc_k : Z;
  loc_discrepMarker : Z;
  loc_g : Z
}.

(** ** The bit link *)

Section BitLink.
Context {W : Type} `{Port W}.

Definition reset_pulse (w : W) : Z * W :=
  let w := set_PC_ODR (Z.lor (PC_ODR w) 0x40) w in
  let w := set_PC_DDR (Z.lor (PC_DDR w) 0x40) w in
  let w := set_PC_ODR (Z.land (PC_ODR w) (u8 (Z.lnot 0x40))) w in
  let w := wait_timer 500 w in
  let w := set_PC_DDR (Z.land (PC_DDR w) (u8 (Z.lnot 0x40))) w in
  let w := wait_timer 100 w in
  let rtn := 0 in
  let '(idr, w) := PC_IDR w in
  let rtn := if Z.land idr 0x40 =? 0 then rtn else 1 in
  let w := wait_timer 200 w in
  (rtn, w).

Definition read_bit (w : W) : Z * W :=
  let bit := 0 in
  let w := set_PC_ODR (Z.lor (PC_ODR w) 0x40) w in
  let w := set_PC_DDR (Z.lor (PC_DDR w) 0x40) w in
  let w := set_PC_ODR (Z.land (PC_ODR w) (u8 (Z.lnot 0x40))) w in
  let w := Nat.iter 4 nop w in
  let w := set_PC_DDR (Z.land (PC_DDR w) (u8 (Z.lnot 0x40))) w in
  let w := Nat.iter 30 nop w in
  let '(idr, w) := PC_IDR w in
  let bit := if Z.land idr 0x40 =? 0 then bit else 1 in
  let w := wait_timer 60 w in
  (bit, w).

Definition write_bit (transmit_bit : Z) (w : W) : W :=
  let w := set_PC_ODR (Z.lor (PC_ODR w) 0x40) w in
  let w := set_PC_DDR (Z.lor (PC_DDR w) 0x40) w in
  let w := set_PC_ODR (Z.land (PC_ODR w) (u8 (Z.lnot 0x40))) w in
  let w := Nat.iter 10 nop w in
  let w := if transmit_bit =? 0 then wait_timer 60 w else w in
  let w := set_PC_DDR (Z.land (PC_DDR w) (u8 (Z.lnot 0x40))) w in
  wait_timer 60 w.

(** [while (1) { ...; if (j == 0x80) break; j <<= 1; }] *)
Fixpoint transmit_byte_loop (fuel : nat) (transmit_value j : Z) (w : W)
  : option W :=
  match fuel with
  | O => None
  | S fuel =>
      let w := if Z.land j transmit_value =? 0 then write_bit 0 w
               else write_bit 1 w in
      if j =? 0x80 then Some w
      else transmit_byte_loop fuel transmit_value (u8 (Z.shiftl j 1)) w
  end.

Definition transmit_byte (transmit_value : Z) (w : W) : option W :=
  transmit_byte_loop 8 transmit_value 0x01 w.

(** [for (i = 0; i < 8; i++) transmit_byte(FoundROM[device_num][i]);] *)
Definition transmit_FoundROM (g : Globals) (device_num : Z) (w : W)
  : option W :=
  foldl (fun ow i => w ← ow; transmit_byte (get2 (FoundROM g) device_num i) w)
        (Some w) (seqZ 0 8).

(** ** ROM search *)

(** One turn of the [do { ... } while (n < 8)] loop of [Next]; the last
    component tells whether the [break] was taken. *)
Definition Next_body (g : Globals) (w : W) (l : NextLocals)
  : Globals * W * NextLocals * bool :=
  let x := 0 in
  let '(b, w) := read_bit w in
  let x := if b =? 1 then 2 else x in
  let '(b, w) := read_bit w in
  let x := if b =? 1 then Z.lor x 1 else x in
  if x =? 3 then (g, w, l, true)
  else
    let m := loc_m l in
    let n := loc_n l in
    let k := loc_k l in
    let '(gbit, discrepMarker) :=
      if 0 <? x then (u8 (Z.shiftr x 1), loc_discrepMarker l)
      else
        let gbit :=
          if m <? lastDiscrep g
          then u8 (c_bool (0 <? Z.land (get1 (ROM g) n) k))
          else u8 (c_bool (m =? lastDiscrep g)) in
        (gbit, if gbit =? 0 then m else loc_discrepMarker l) in
    let g :=
      if gbit =? 1
      then with_ROM (set1 (ROM g) n (Z.lor (get1 (ROM g) n) k)) g
      else with_ROM (set1 (ROM g) n
                          (Z.land (get1 (ROM g) n) (u8 (Z.lnot k)))) g in
    let w := write_bit gbit w in
    let m := u8 (m + 1) in
    let k := u8 (Z.shiftl k 1) in
    let '(n, k) := if k =? 0 then (n + 1, u8 (k + 1)) else (n, k) in
    (g, w, mkLocals m n k discrepMarker gbit, false).

Fixpoint Next_loop (fuel : nat) (g : Globals) (w : W) (l : NextLocals)
  : option (Globals * W * NextLocals) :=
  match fuel with
  | O => None
  | S fuel =>
      let '(g, w, l, brk) := Next_body g w l in
      if brk : bool then Some (g, w, l)
      else if loc_n l <? 8 then Next_loop fuel g w l
      else Some (g, w, l)
  end.

Definition Next (g : Globals) (w : W) : option (Z * Globals * W) :=
  let nxt := 0 in
  let '(r, w) := reset_pulse w in
  if negb (r =? 0) || negb (doneFlag g =? 0)
  then Some (0, with_lastDiscrep 0 g, w)
  else
    w ← transmit_byte 0xF0 w;
    '(g, w, l) ← Next_loop 64 g w (mkLocals 1 0 1 0 0);
    let crc := dallas_crc8 (ROM g) 8 in
    if (loc_m l <? 65) || negb (crc =? past_ROM g)
    then Some (nxt, with_lastDiscrep 0 g, w)
    else
      let g := with_lastDiscrep (loc_discrepMarker l) g in
      let g := with_doneFlag (u8 (c_bool (lastDiscrep g =? 0))) g in
      Some (1, g, w).

Definition First (g : Globals) (w : W) : option (Z * Globals * W) :=
  let g := with_lastDiscrep 0 g in
  let g := with_doneFlag 0 g in
  Next g w.

(** [do { numROMs++; copy ROM } while (Next() && (numROMs < 5));] *)
Fixpoint FindDevices_loop (fuel : nat) (g : Globals) (w : W)
  : option (Globals * W) :=
  match fuel with
  | O => None
  | S fuel =>
      let g := with_numROMs (numROMs g + 1) g in
      let g := foldl (fun g m => store_FoundROM (numROMs g) m (get1 (ROM g) m) g)
                     g (seqZ 0 8) in
      '(nxt, g, w) ← Next g w;
      if negb (nxt =? 0) && (numROMs g <? 5)
      then FindDevices_loop fuel g w
      else Some (g, w)
  end.

Definition FindDevices (g : Globals) (w : W) : option (Globals * W) :=
  let g := with_numROMs (-1) g in
  let '(r, w) := reset_pulse w in
  if r =? 0 then
    '(fst_, g, w) ← First g w;
    if negb (fst_ =? 0) then FindDevices_loop 6 g w else Some (g, w)
  else Some (g, w).

(** ** Sampling *)

(** The [while (1)] loop that clocks one scratchpad byte in. *)
Fixpoint read_scratch_loop (fuel : nat) (device_num i j : Z)
         (g : Globals) (w : W) : option (Globals * W) :=
  match fuel with
  | O => None
  | S fuel =>
      let '(b, w) := read_bit w in
      let old := get2 (DS18B20_scratch g) device_num i in
      let g :=
        if b =? 1
        then with_scratch (set2 (DS18B20_scratch g) device_num i
                                (Z.lor old j)) g
        else with_scratch (set2 (DS18B20_scratch g) device_num i
                                (Z.land old (u8 (Z.lnot j)))) g in
      if j =? 0x80 then Some (g, w)
      else read_scratch_loop fuel device_num i (u8 (Z.shiftl j 1)) g w
  end.

(** One turn of the [for (device_num ...)] loop; [false] in the first
    component stands for the [return] after a failed reset. *)
Definition get_temperature_body (device_num : Z) (g : Globals) (w : W)
  : option (bool * Globals * W) :=
  let '(r, w) := reset_pulse w in
  if negb (r =? 0) then Some (false, g, w)
  else if device_num <=? numROMs g then
    w ← transmit_byte 0x55 w;
    w ← transmit_FoundROM g device_num w;
    w ← transmit_byte 0xbe w;
    '(g, w) ← foldl (fun s i => '(g, w) ← s;
                                read_scratch_loop 8 device_num i 0x01 g w)
                    (Some (g, w)) (seqZ 0 2);
    let '(_, w) := reset_pulse w in
    w ← transmit_byte 0x55 w;
    w ← transmit_FoundROM g device_num w;
    w ← transmit_byte 0x44 w;
    Some (true, g, w)
  else Some (true, g, w).

(** [for (device_num = 0; device_num < 5; device_num++)] *)
Fixpoint get_temperature_loop (fuel : nat) (device_num : Z)
         (g : Globals) (w : W) : option (Globals * W) :=
  if device_num <? 5 then
    match fuel with
    | O => None
    | S fuel =>
        '(go, g, w) ← get_temperature_body device_num g w;
        if go : bool then get_temperature_loop fuel (u8 (device_num + 1)) g w
        else Some (g, w)
    end
  else Some (g, w).

Definition get_temperature (g : Globals) (w : W) : option (Globals * W) :=
  get_temperature_loop 5 0 g w.

End BitLink.

(** ** The search under any placement of the byte behind [ROM]

    [ROM] has eight bytes and [Next] reads [ROM[8]]: which byte that is
    depends on where the linker puts the globals.  In [Next] above it is a
    byte of its own ([past_ROM]).  Here the reader of that byte is a
    parameter, applied to the globals at the moment of the comparison:
    [past_ROM] gives [Next] back, and [lastDiscrep] is the placement in
    declaration order, [uint8_t ROM[8]; uint8_t lastDiscrep]. *)

Section Layout.
Context {W : Type} `{Port W}.
Variable ROM_8 : Globals -> Z.

Definition Next_at (g : Globals) (w : W) : option (Z * Globals * W) :=
  let nxt := 0 in
  let '(r, w) := reset_pulse w in
  if negb (r =? 0) || negb (doneFlag g =? 0)
  then Some (0, with_lastDiscrep 0 g, w)
  else
    w ← transmit_byte 0xF0 w;
    '(g, w, l) ← Next_loop 64 g w (mkLocals 1 0 1 0 0);
    let crc := dallas_crc8 (ROM g) 8 in
    if (loc_m l <? 65) || negb (crc =? ROM_8 g)
    then Some (nxt, with_lastDiscrep 0 g, w)
    else
      let g := with_lastDiscrep (loc_discrepMarker l) g in
      let g := with_doneFlag (u8 (c_bool (lastDiscrep g =? 0))) g in
      Some (1, g, w).

Definition First_at (g : Globals) (w : W) : option (Z * Globals * W) :=
  let g := with_lastDiscrep 0 g in
  let g := with_doneFlag 0 g in
  Next_at g w.

Fixpoint FindDevices_loop_at (fuel : nat) (g : Globals) (w : W)
  : option (Globals * W) :=
  match fuel with
  | O => None
  | S fuel =>
      let g := with_numROMs (numROMs g + 1) g in
      let g := foldl (fun g m => store_FoundROM (numROMs g) m (get1 (ROM g) m) g)
                     g (seqZ 0 8) in
      '(nxt, g, w) ← Next_at g w;
      if negb (nxt =? 0) && (numROMs g <? 5)
      then FindDevices_loop_at fuel g w
      else Some (g, w)
  end.

Definition FindDevices_at (g : Globals) (w : W) : option (Globals * W) :=
  let g := with_numROMs (-1) g in
  let '(r, w) := reset_pulse w in
  if r =? 0 then
    '(fst_, g, w) ← First_at g w;
    if negb (fst_ =? 0) then FindDevices_loop_at 6 g w else Some (g, w)
  else Some (g, w).
End Layout.

(** ** Formatter *)

(** Table used for rounding the decimal part of temperatures. *)
Definition dec_temp : list Z :=
  map chr ["0"; "1"; "1"; "2"; "3"; "3"; "4"; "4";
           "5"; "6"; "6"; "7"; "8"; "8"; "9"; "9"]%char.

(** The characters of a C string: everything before the first NUL. *)
Fixpoint c_string (s : list Z) : list Z :=
  match s with
  | [] => []
  | c :: s => if c =? 0 then [] else c :: c_string s
  end.

(** [strcpy(dst, src)]: the string and its NUL replace the front of [dst]. *)
Definition strcpy (dst src : list Z) : list Z :=
  let s := c_string src ++ [0] in
  s ++ drop (length s) dst.

(** The degrees C branch of [convert_temperature]: sign character,
    [whole_temp] and [decimal_temp]. *)
Definition celsius_parts (msb lsb : Z) : Z * Z * Z :=
  let whole_temp := i16 msb in
  let whole_temp := i16 (Z.shiftl whole_temp 8) in
  let whole_temp := i16 (Z.lor whole_temp lsb) in
  let whole_temp := i16 (Z.land whole_temp 0x07f0) in
  let whole_temp := i16 (Z.shiftr whole_temp 4) in
  let decimal_temp := u8 lsb in
  let decimal_temp := u8 (Z.land decimal_temp 0x0f) in
  if Z.land msb 0x80 =? 0x80 then
    let whole_temp := i16 (Z.lxor whole_temp 0x007f) in
    let decimal_temp := u8 (Z.lxor decimal_temp 0x0f) in
    let decimal_temp := u8 (decimal_temp + 1) in
    let decimal_temp := u8 (Z.land decimal_temp 0x0f) in
    (chr "-", whole_temp, decimal_temp)
  else (chr " ", whole_temp, decimal_temp).

(** The degrees F branch. *)
Definition fahrenheit_parts (msb lsb : Z) : Z * Z * Z :=
  let raw_temp := u16 msb in
  let raw_temp := u16 (Z.shiftl raw_temp 8) in
  let raw_temp := u16 (Z.lor raw_temp lsb) in
  let F_temp0 := i16 raw_temp in
  let F_temp1 := i32 F_temp0 in
  let F_temp1 := i32 ((F_temp1 + 880) * 180) in
  let F_temp2 := i32 (F_temp1 ÷ 100) in
  let F_temp2 := i32 (F_temp2 - 1072) in
  let whole_temp := i16 (F_temp2 ÷ 16) in
  let decimal_temp := u8 (Z.land F_temp2 0xf) in
  if F_temp2 <? 0 then
    let whole_temp := i16 (whole_temp * -1) in
    let decimal_temp := u8 (Z.land (Z.lxor decimal_temp 0xf + 1) 0x0f) in
    (chr "-", whole_temp, decimal_temp)
  else (chr " ", whole_temp, decimal_temp).

Section Formatter.
(** [emb_itoa(num, str, base, pad)] is declared in httpd.h and defined
    elsewhere: it is a parameter, mapping the old contents of [str] to the
    new ones. *)
Variable emb_itoa : Z -> list Z -> Z -> Z -> list Z.

(** The "Build string" part: [emb_itoa] leaves the digits of the whole
    degrees in [OctetArray], [strcpy] puts the finished string there. *)
Definition build_string (parts : Z * Z * Z) (g : Globals) : Globals :=
  let '(sign, whole_temp, decimal_temp) := parts in
  let g := with_OctetArray
             (emb_itoa (u32 whole_temp) (OctetArray g) 10 3) g in
  let temp_string :=
    [sign; get1 (OctetArray g) 0; get1 (OctetArray g) 1;
     get1 (OctetArray g) 2; chr "."; get1 dec_temp decimal_temp; 0] in
  with_OctetArray (strcpy (OctetArray g) temp_string) g.

Definition convert_temperature (device_num degCorF : Z) (g : Globals)
  : Globals :=
  if negb (get2 (DS18B20_scratch g) device_num 1 =? 0x55) then
    let msb := get2 (DS18B20_scratch g) device_num 1 in
    let lsb := get2 (DS18B20_scratch g) device_num 0 in
    build_string (if degCorF =? 0 then celsius_parts msb lsb
                  else fahrenheit_parts msb lsb) g
  else
    with_OctetArray
      (strcpy (OctetArray g)
              (map chr ["-"; "-"; "-"; "-"; "-"; "-"]%char ++ [0])) g.
End Formatter.

(** ** A simulated 1-Wire bus

    The devices follow the ROM-search protocol of the data sheet: after a
    reset they take a command byte, and on Search ROM (0xF0) every device
    still in the search sends its next identifier bit, then the complement,
    then reads the direction the master writes and drops out when its bit
    differs.  The wire is a wired AND: it is low when the master or any
    device pulls low.  Time is counted in nop ticks, two per microsecond. *)

Definition id_bit (id : list Z) (pos : nat) : bool :=
  Z.testbit (get1 id (Z.of_nat (pos / 8))) (Z.of_nat (pos mod 8)).

Inductive SearchPhase := SendBit | SendComplement | TakeDirection.

Inductive Proto :=
| Idle
| Command (nbits : nat) (acc : Z)
| Searching (active : list (list Z)) (pos : nat) (phase : SearchPhase).

(** Does some device hold the line low in a slot that starts now? *)
Definition proto_pulls_low (p : Proto) : bool :=
  match p with
  | Searching active pos SendBit =>
      existsb (fun d => negb (id_bit d pos)) active
  | Searching active pos SendComplement =>
      existsb (fun d => id_bit d pos) active
  | _ => false
  end.

(** The devices after a time slot in which they sampled [bit]. *)
Definition proto_slot (ids : list (list Z)) (bit : bool) (p : Proto) : Proto :=
  match p with
  | Idle => Idle
  | Command nbits acc =>
      let acc := if bit then Z.lor acc (Z.shiftl 1 (Z.of_nat nbits)) else acc in
      if (nbits =? 7)%nat
      then if acc =? 0xF0 then Searching ids 0 SendBit else Idle
      else Command (S nbits) acc
  | Searching active pos SendBit => Searching active pos SendComplement
  | Searching active pos SendComplement => Searching active pos TakeDirection
  | Searching active pos TakeDirection =>
      let active := List.filter (fun d => Bool.eqb (id_bit d pos) bit) active in
      if (pos =? 63)%nat then Idle else Searching active (S pos) SendBit
  end.

Record SimBus := mkSimBus {
  sim_ODR : Z;
  sim_DDR : Z;
  sim_pins : Z;              (* levels of the other port C pins *)
  sim_held : Z;              (* ticks the master has held the line low *)
  sim_pull_in : Z;           (* ticks until the devices start pulling low *)
  sim_pull_for : Z;          (* ticks for which they then keep it low *)
  sim_devices : list (list Z);
  sim_proto : Proto
}.

(** The master pulls the line low when bit 6 is an output driving 0. *)
Definition driving_low (odr ddr : Z) : bool :=
  Z.testbit ddr 6 && negb (Z.testbit odr 6).

(** A change of the port registers: a falling edge opens a slot, a rising
    edge ends it; a low time of 480us or more is a reset, answered by a
    presence pulse, and in a shorter slot the devices sample at 30us. *)
Definition sim_regs (odr ddr : Z) (s : SimBus) : SimBus :=
  let before := driving_low (sim_ODR s) (sim_DDR s) in
  let after := driving_low odr ddr in
  if negb before && after then
    mkSimBus odr ddr (sim_pins s) 0 0
             (if proto_pulls_low (sim_proto s) then 60 else 0)
             (sim_devices s) (sim_proto s)
  else if before && negb after then
    if 960 <=? sim_held s then
      match sim_devices s with
      | [] => mkSimBus odr ddr (sim_pins s) (sim_held s) 0 0 [] (Command 0 0)
      | _ => mkSimBus odr ddr (sim_pins s) (sim_held s) 60 240
                      (sim_devices s) (Command 0 0)
      end
    else
      mkSimBus odr ddr (sim_pins s) (sim_held s)
               (sim_pull_in s) (sim_pull_for s) (sim_devices s)
               (proto_slot (sim_devices s) (sim_held s <? 60) (sim_proto s))
  else
    mkSimBus odr ddr (sim_pins s) (sim_held s)
             (sim_pull_in s) (sim_pull_for s) (sim_devices s) (sim_proto s).

Definition sim_tick (d : Z) (s : SimBus) : SimBus :=
  let held := if driving_low (sim_ODR s) (sim_DDR s)
              then sim_held s + d else sim_held s in
  if d <=? sim_pull_in s then
    mkSimBus (sim_ODR s) (sim_DDR s) (sim_pins s) held
             (sim_pull_in s - d) (sim_pull_for s) (sim_devices s) (sim_proto s)
  else
    mkSimBus (sim_ODR s) (sim_DDR s) (sim_pins s) held
             0 (Z.max 0 (sim_pull_for s - (d - sim_pull_in s)))
             (sim_devices s) (sim_proto s).

Definition sim_line_high (s : SimBus) : bool :=
  negb (driving_low (sim_ODR s) (sim_DDR s))
  && negb ((sim_pull_in s =? 0) && (0 <? sim_pull_for s)).

#[export] Instance SimPort : Port SimBus := {
  PC_ODR := sim_ODR;
  PC_DDR := sim_DDR;
  set_PC_ODR v s := sim_regs v (sim_DDR s) s;
  set_PC_DDR v s := sim_regs (sim_ODR s) v s;
  PC_IDR s :=
    (Z.lor (Z.land (sim_pins s) 0xBF) (if sim_line_high s then 0x40 else 0), s);
  wait_timer us s := sim_tick (2 * us) s;
  nop s := sim_tick 1 s
}.

(** A bus at rest with the given devices attached. *)
Definition sim_bus (ids : list (list Z)) : SimBus :=
  mkSimBus 0 0 0 0 0 0 ids Idle.

(** ** A scripted port

    The world is the list of values [PC_IDR] will show, one per sample; when
    the script is over the line floats high. *)

Definition Script := list Z.

#[export] Instance ScriptPort : Port Script := {
  PC_ODR _ := 0;
  PC_DDR _ := 0;
  set_PC_ODR _ s := s;
  set_PC_DDR _ s := s;
  PC_IDR s := (hd 0x40 s, tl s);
  wait_timer _ s := s;
  nop s := s
}.

(** ** Notions used in the statements *)

(** A [uint8_t[8]] value. *)
Definition wf_id (id : list Z) : Prop :=
  length id = 8%nat /\ Forall (fun b => 0 <= b < 256) id.

(** The arrays of the search have their declared shapes. *)
Definition wf_globals (g : Globals) : Prop :=
  wf_id (ROM g) /\ length (FoundROM g) = 5%nat /\ Forall wf_id (FoundROM g).

(** The simulated bus between two operations of the master: the pin is an
    input and no device is pulling the line. *)
Definition sim_rest (s : SimBus) : Prop :=
  Z.testbit (sim_DDR s) 6 = false /\ sim_pull_in s = 0 /\ sim_pull_for s = 0.

Definition bus_at (s : SimBus) (ids : list (list Z)) (p : Proto) : Prop :=
  sim_rest s /\ sim_devices s = ids /\ sim_proto s = p.

(** Devices that send 0, respectively 1, at a bit position. *)
Definition zeros_at (pos : nat) (P : list (list Z)) : list (list Z) :=
  List.filter (fun d => negb (id_bit d pos)) P.
Definition ones_at (pos : nat) (P : list (list Z)) : list (list Z) :=
  List.filter (fun d => id_bit d pos) P.

(** The order in which the search visits the devices [P] that agree on the
    bits before position [64 - n]: the 0 branch of every discrepancy first.
    Each identifier comes with the discrepancy marker that the pass finding
    it leaves: the deepest position (counted from 1) where it took the 0
    branch of a discrepancy, or 0 when there is none. *)
Fixpoint search_order (n : nat) (P : list (list Z)) : list (list Z * Z) :=
  match n with
  | O => match P with [] => [] | d :: _ => [(d, 0)] end
  | S n' =>
      let pos := (63 - n')%nat in
      let E0 := search_order n' (zeros_at pos P) in
      let E1 := search_order n' (ones_at pos P) in
      match ones_at pos P with
      | [] => E0
      | _ => map (fun e => (fst e, if snd e =? 0 then Z.of_nat pos + 1
                                   else snd e)) E0
      end ++ E1
  end.

(** The devices' state when the search has reached bit position [pos]. *)
Definition search_proto (P : list (list Z)) (pos : nat) : Proto :=
  if (pos <? 64)%nat then Searching P pos SendBit else Idle.

(** The locals of [Next] at the head of the loop for bit position [pos]. *)
Definition locals_at (pos : nat) (marker gbit : Z) : NextLocals :=
  mkLocals (Z.of_nat pos + 1) (Z.of_nat (pos / 8))
           (2 ^ Z.of_nat (pos mod 8)) marker gbit.

(** The identifier in [ROM] with the bit at [pos] replaced, the way the
    loop of [Next] stores its output bit. *)
Definition rom_store (rom : list Z) (pos : nat) (b : bool) : list Z :=
  let n := Z.of_nat (pos / 8) in
  let k := 2 ^ Z.of_nat (pos mod 8) in
  if b then set1 rom n (Z.lor (get1 rom n) k)
  else set1 rom n (Z.land (get1 rom n) (u8 (Z.lnot k))).

Section Statements.
Context {W : Type} `{Port W}.

(** The loop of [Next] resumed at its [while (n < 8)] test. *)
Definition Next_continue (fuel : nat) (g : Globals) (w : W) (l : NextLocals)
  : option (Globals * W * NextLocals) :=
  if loc_n l <? 8 then Next_loop fuel g w l else Some (g, w, l).

(** The sampling pass up to, and without, the turn for [device_num = d]:
    [None] when an earlier turn returned. *)
Fixpoint sampled_before (d : nat) (g : Globals) (w : W)
  : option (Globals * W) :=
  match d with
  | O => Some (g, w)
  | S d' =>
      '(g, w) ← sampled_before d' g w;
      '(go, g, w) ← get_temperature_body (Z.of_nat d') g w;
      if go : bool then Some (g, w) else None
  end.
End Statements.


(** The most significant byte of a reading [t] in the sensor's format. *)
Definition reading_msb (t : Z) : Z := (t mod 65536) / 256.

(** Degrees C of a negative sample the way the specification words it:
    two's-complement the combined whole and fraction bits (invert, add 1),
    then split into whole degrees and fraction nibble. *)
Definition celsius_twos_complement (msb lsb : Z) : Z * Z * Z :=
  let combined := Z.land (256 * msb + lsb) 0x07ff in
  let magnitude := Z.land (Z.lxor combined 0x07ff + 1) 0x07ff in
  (chr "-", Z.shiftr magnitude 4, Z.land magnitude 0x0f).


(** ** Definitions used by the proofs *)

Section ProofDefs1.
Context {W : Type} `{Port W}.

(** The eight write slots of [transmit_byte], one per mask. *)
Definition write_bits (v : Z) (w : W) : W :=
  foldl (fun w j => if Z.land j v =? 0 then write_bit 0 w else write_bit 1 w)
        w [1; 2; 4; 8; 16; 32; 64; 128].

End ProofDefs1.

(** The bit a turn of the loop of [Next] writes at position [pos], given
    the two bits it read. *)
Definition chosen_bit (g : Globals) (pos : nat) (b1 b2 : Z) : bool :=
  if b1 =? 1 then true
  else if b2 =? 1 then false
  else if Z.of_nat pos + 1 <? lastDiscrep g then id_bit (ROM g) pos
  else Z.of_nat pos + 1 =? lastDiscrep g.

(** The discrepancy marker after that turn. *)
Definition new_marker (g : Globals) (pos : nat) (b1 b2 mk : Z) : Z :=
  if (b1 =? 1) || (b2 =? 1) then mk
  else if chosen_bit g pos b1 b2 then mk else Z.of_nat pos + 1.

(** What the two read slots of a turn show when the devices [P] are in the
    search at position [pos]: the wired AND of their bits, then of the
    complements. *)
Definition sim_b1 (P : list (list Z)) (pos : nat) : Z :=
  if existsb (fun d => negb (id_bit d pos)) P then 0 else 1.

Definition sim_b2 (P : list (list Z)) (pos : nat) : Z :=
  if existsb (fun d => id_bit d pos) P then 0 else 1.

(** The identifier [d] (with its marker) that a pass is heading for: the
    first of the visiting order when the position is past [lastDiscrep],
    else the successor of the identifier found last. *)
Definition pass_target (n pos : nat) (P : list (list Z)) (g : Globals)
           (d : list Z) (mkd : Z) : Prop :=
  (lastDiscrep g <= Z.of_nat pos /\ search_order n P !! 0%nat = Some (d, mkd))
  \/ (Z.of_nat pos < lastDiscrep g /\
      exists i prev,
        search_order n P !! i = Some (prev, lastDiscrep g) /\
        (forall q, (pos <= q < 64)%nat -> id_bit prev q = id_bit (ROM g) q) /\
        search_order n P !! S i = Some (d, mkd)).

Section ProofDefs2.
Context {W : Type} `{Port W}.

(** What [Next] does with the outcome of its loop. *)
Definition Next_finish (r : Globals * W * NextLocals) : Z * Globals * W :=
  let '(g, w, l) := r in
  if (loc_m l <? 65) || negb (dallas_crc8 (ROM g) 8 =? past_ROM g)
  then (0, with_lastDiscrep 0 g, w)
  else (1, with_doneFlag (u8 (c_bool (loc_discrepMarker l =? 0)))
             (with_lastDiscrep (loc_discrepMarker l) g), w).

End ProofDefs2.

(** The globals after a pass that resolved identifier [d] with marker [mkd]. *)
Definition after_pass (g : Globals) (d : list Z) (mkd : Z) : Z * Globals :=
  if dallas_crc8 d 8 =? past_ROM g
  then (1, with_doneFlag (u8 (c_bool (mkd =? 0)))
             (with_lastDiscrep mkd (with_ROM d g)))
  else (0, with_lastDiscrep 0 (with_ROM d g)).

(** The first half of a turn of the loop of [FindDevices]: count and copy. *)
Definition stored (g : Globals) : Globals :=
  foldl (fun g m => store_FoundROM (numROMs g) m (get1 (ROM g) m) g)
        (with_numROMs (numROMs g + 1) g) (seqZ 0 8).

(** What a run of [FindDevices] leaves untouched. *)
Definition same_rest (g g' : Globals) : Prop :=
  past_ROM g' = past_ROM g /\ FoundROM_overrun g' = FoundROM_overrun g /\
  DS18B20_scratch g' = DS18B20_scratch g /\ OctetArray g' = OctetArray g.

(** The state of the search between two turns of the loop of [FindDevices]:
    [i] identifiers are in the table, and [ROM] holds the next one. *)
Definition loop_inv (E : list (list Z * Z)) (i : nat) (g : Globals) : Prop :=
  wf_globals g /\
  E !! i = Some (ROM g, lastDiscrep g) /\
  doneFlag g = c_bool (lastDiscrep g =? 0) /\
  numROMs g = Z.of_nat i - 1 /\
  take i (FoundROM g) = (take i E).*1.

(** Globals after start-up: the arrays zeroed, [v] in the byte behind [ROM]. *)
Definition globals_init (v : Z) : Globals :=
  mkGlobals (replicate 8 0) v 0 0 (replicate 5 (replicate 8 0)) [] 0
            (replicate 5 (replicate 2 0)) (replicate 11 0).

(** An identifier as a device carries it: family code, serial number, and
    in the last byte the CRC of the seven bytes before. *)
Definition device_id (family s1 s2 : Z) : list Z :=
  let l := [family; s1; s2; 0; 0; 0; 0] in l ++ [dallas_crc8 l 7].

(** Equality test on sign, whole degrees and fraction. *)
Definition parts_eqb (a b : Z * Z * Z) : bool :=
  (a.1.1 =? b.1.1) && (a.1.2 =? b.1.2) && (a.2 =? b.2).

(** Globals with a given raw sample in slot 0. *)
Definition globals_sample (msb lsb : Z) : Globals :=
  with_scratch (<[0%nat := [lsb; msb]]> (DS18B20_scratch (globals_init 0)))
               (globals_init 0).

(** A stand-in for [emb_itoa]: [pad] decimal digits of [num], then NUL. *)
Definition itoa_digits (num : Z) (str : list Z) (base pad : Z) : list Z :=
  let digit i := chr "0" + (num / base ^ i) mod base in
  let s := map digit (reverse (seqZ 0 pad)) ++ [0] in
  s ++ drop (length s) str.

(** What the sampling pass leaves untouched. *)
Definition same_search (g g' : Globals) : Prop :=
  ROM g' = ROM g /\ past_ROM g' = past_ROM g /\ lastDiscrep g' = lastDiscrep g /\
  doneFlag g' = doneFlag g /\ FoundROM g' = FoundROM g /\
  FoundROM_overrun g' = FoundROM_overrun g /\ numROMs g' = numROMs g /\
  OctetArray g' = OctetArray g.

Section ProofDefs3.
Context {W : Type} `{Port W}.

(** Match ROM: the command byte and the eight bytes of a table row. *)
Definition match_rom (g : Globals) (dn : Z) (w : W) : W :=
  foldl (fun w i => write_bits (get2 (FoundROM g) dn i) w)
        (write_bits 0x55 w) (seqZ 0 8).

(** The two scratchpad bytes of a turn. *)
Definition read_sample (dn : Z) (g : Globals) (w : W) : option (Globals * W) :=
  match read_scratch_loop 8 dn 0 0x01 g w with
  | Some (g, w) => read_scratch_loop 8 dn 1 0x01 g w
  | None => None
  end.

End ProofDefs3.

(** Three devices of family 0x28. *)
Definition three_ids : list (list Z) :=
  [device_id 0x28 5 1; device_id 0x28 3 7; device_id 0x28 4 0xff].

(** Six devices: one more than the table holds. *)
Definition six_ids : list (list Z) :=
  map (fun s => device_id 0x28 s 0) [1; 2; 3; 4; 5; 6].



(** A script for the sampling pass: presence, sixteen 1 bits, presence at
    the second reset of the turn, then [rest]. *)
Definition sample_script (rest : Script) : Script :=
  [0] ++ replicate 16 0x40 ++ rest.

(** What a call of [Next] leaves untouched. *)
Definition search_frame (g g' : Globals) : Prop :=
  past_ROM g' = past_ROM g /\ FoundROM g' = FoundROM g /\
  FoundROM_overrun g' = FoundROM_overrun g /\ numROMs g' = numROMs g /\
  DS18B20_scratch g' = DS18B20_scratch g /\ OctetArray g' = OctetArray g /\
  length (ROM g') = length (ROM g).

(** The eight stores of one identifier behind the table. *)
Definition overrun_row (r : Z) (rom : list Z) : list (Z * Z * Z) :=
  map (fun m => (r, m, get1 rom m)) (seqZ 0 8).

(** What [FindDevices] may change besides the search state: the count,
    the rows up to the count, and one row behind the table when the count
    ends at 5. *)
Definition table_frame (g g' : Globals) : Prop :=
  past_ROM g' = past_ROM g /\ DS18B20_scratch g' = DS18B20_scratch g /\
  OctetArray g' = OctetArray g /\ length (FoundROM g') = length (FoundROM g) /\
  (numROMs g' < 5 -> FoundROM_overrun g' = FoundROM_overrun g) /\
  (numROMs g' = 5 ->
   exists rom, FoundROM_overrun g' = FoundROM_overrun g ++ overrun_row 5 rom) /\
  (forall i : nat, numROMs g' < Z.of_nat i -> FoundROM g' !! i = FoundROM g !! i).

(** The byte with the given bits, least significant first; a read slot
    counts as 1 when [read_bit] returned 1. *)
Fixpoint byte_of_bits (bs : list Z) : Z :=
  match bs with
  | [] => 0
  | b :: bs => c_bool (b =? 1) + 2 * byte_of_bits bs
  end.

(** The bits of a byte, least significant first. *)
Definition bits_of_byte (x : Z) : list Z :=
  map (fun k => c_bool (Z.testbit x k)) (seqZ 0 8).

(** What the loop makes of a byte, bit by bit from mask [j] on. *)
Fixpoint assemble (j old : Z) (bs : list Z) : Z :=
  match bs with
  | [] => old
  | b :: bs =>
      assemble (u8 (Z.shiftl j 1))
               (if b =? 1 then Z.lor old j else Z.land old (u8 (Z.lnot j))) bs
  end.

Section ProofDefs4.
Context {W : Type} `{Port W}.

(** The results of [n] read slots in a row, and the world after them. *)
Fixpoint read_bits (n : nat) (w : W) : list Z * W :=
  match n with
  | O => ([], w)
  | S n => let '(b, w) := read_bit w in
           let '(bs, w) := read_bits n w in (b :: bs, w)
  end.

End ProofDefs4.

(** The value a sign character, whole degrees and a fraction nibble stand
    for, in sixteenths of a degree. *)
Definition parts_value (p : Z * Z * Z) : Z :=
  let '(sign, whole, nibble) := p in
  if sign =? chr "-" then - (16 * whole + nibble) else 16 * whole + nibble.

(** The two sample bytes of a reading [t], a 16-bit two's complement. *)
Definition reading_lsb (t : Z) : Z := t mod 256.

(** [d] comes before [e] when, at the first of the 64 bit positions where
    they differ (bit 0 of byte 0 first), [d] has 0 and [e] has 1. *)
Definition bit_lt (d e : list Z) : Prop :=
  exists q, (q < 64)%nat /\
    (forall i, (i < q)%nat -> id_bit d i = id_bit e i) /\
    id_bit d q = false /\ id_bit e q = true.

(** The identifiers agree on the bit positions below [pos]. *)
Definition agree_below (pos : nat) (P : list (list Z)) : Prop :=
  forall d e, d ∈ P -> e ∈ P ->
              forall i, (i < pos)%nat -> id_bit d i = id_bit e i.

Section ProofDefs5.
Context {W : Type} `{Port W}.

(** What [Next_at] does with the outcome of its loop. *)
Definition Next_finish_at (rom8 : Globals -> Z)
           (r : Globals * W * NextLocals) : Z * Globals * W :=
  let '(g, w, l) := r in
  if (loc_m l <? 65) || negb (dallas_crc8 (ROM g) 8 =? rom8 g)
  then (0, with_lastDiscrep 0 g, w)
  else (1, with_doneFlag (u8 (c_bool (loc_discrepMarker l =? 0)))
             (with_lastDiscrep (loc_discrepMarker l) g), w).

End ProofDefs5.

(** * Properties *)

Lemma bit6_set x : Z.testbit (Z.lor x 0x40) 6 = true.
Proof. rewrite Z.lor_spec. apply orb_true_r. Qed.
Lemma bit6_clear x : Z.testbit (Z.land x (u8 (Z.lnot 0x40))) 6 = false.
Proof. rewrite Z.land_spec. apply andb_false_r. Qed.

Lemma driving_input odr ddr : Z.testbit ddr 6 = false -> driving_low odr ddr = false.
Proof. unfold driving_low. intros ->. reflexivity. Qed.
Lemma driving_high odr ddr : driving_low (Z.lor odr 0x40) ddr = false.
Proof. unfold driving_low. rewrite bit6_set. apply andb_false_r. Qed.
Lemma driving_pull odr ddr :
  driving_low (Z.land odr (u8 (Z.lnot 0x40))) (Z.lor ddr 0x40) = true.
Proof. unfold driving_low. rewrite bit6_set, bit6_clear. reflexivity. Qed.
Lemma driving_released odr ddr :
  driving_low odr (Z.land ddr (u8 (Z.lnot 0x40))) = false.
Proof. apply driving_input, bit6_clear. Qed.

Lemma sim_regs_same odr ddr o d pins held pin pfor devs proto :
  driving_low o d = false -> driving_low odr ddr = false ->
  sim_regs odr ddr (mkSimBus o d pins held pin pfor devs proto)
  = mkSimBus odr ddr pins held pin pfor devs proto.
Proof. intros Hb Ha. unfold sim_regs. cbn [sim_ODR sim_DDR]. rewrite Hb, Ha. reflexivity. Qed.

Lemma sim_regs_fall odr ddr o d pins held pin pfor devs proto :
  driving_low o d = false -> driving_low odr ddr = true ->
  sim_regs odr ddr (mkSimBus o d pins held pin pfor devs proto)
  = mkSimBus odr ddr pins 0 0 (if proto_pulls_low proto then 60 else 0) devs proto.
Proof. intros Hb Ha. unfold sim_regs. cbn [sim_ODR sim_DDR]. rewrite Hb, Ha. reflexivity. Qed.

Lemma sim_regs_rise odr ddr o d pins held pin pfor devs proto :
  driving_low o d = true -> driving_low odr ddr = false ->
  sim_regs odr ddr (mkSimBus o d pins held pin pfor devs proto)
  = if 960 <=? held then
      mkSimBus odr ddr pins held (match devs with [] => 0 | _ => 60 end)
               (match devs with [] => 0 | _ => 240 end) devs (Command 0 0)
    else mkSimBus odr ddr pins held pin pfor devs (proto_slot devs (held <? 60) proto).
Proof.
  intros Hb Ha. unfold sim_regs. cbn [sim_ODR sim_DDR sim_held sim_devices]. rewrite Hb, Ha. cbn [negb andb].
  destruct (960 <=? held); [destruct devs|]; reflexivity.
Qed.

Lemma sim_tick_low t o d pins held pin pfor devs proto :
  driving_low o d = true ->
  sim_tick t (mkSimBus o d pins held pin pfor devs proto)
  = if t <=? pin then mkSimBus o d pins (held + t) (pin - t) pfor devs proto
    else mkSimBus o d pins (held + t) 0 (Z.max 0 (pfor - (t - pin))) devs proto.
Proof. intros Hb. unfold sim_tick. cbn [sim_ODR sim_DDR sim_held sim_devices]. rewrite Hb. reflexivity. Qed.

Lemma sim_tick_free t o d pins held pin pfor devs proto :
  driving_low o d = false ->
  sim_tick t (mkSimBus o d pins held pin pfor devs proto)
  = if t <=? pin then mkSimBus o d pins held (pin - t) pfor devs proto
    else mkSimBus o d pins held 0 (Z.max 0 (pfor - (t - pin))) devs proto.
Proof. intros Hb. unfold sim_tick. cbn [sim_ODR sim_DDR sim_held sim_devices]. rewrite Hb. reflexivity. Qed.

Create HintDb drv.
#[local] Hint Resolve driving_input driving_high driving_pull driving_released : drv.

Ltac is_Zconst z :=
  lazymatch z with
  | Z0 => idtac | Zpos ?p => is_Pconst p | Zneg ?p => is_Pconst p
  end
with is_Pconst p :=
  lazymatch p with
  | xH => idtac | xO ?q => is_Pconst q | xI ?q => is_Pconst q
  end.

Ltac fold_consts :=
  repeat match goal with
    | |- context [?a <=? ?b] =>
        is_Zconst a; is_Zconst b;
        let r := eval vm_compute in (a <=? b) in change (a <=? b) with r
    | |- context [?a <? ?b] =>
        is_Zconst a; is_Zconst b;
        let r := eval vm_compute in (a <? b) in change (a <? b) with r
    | |- context [?a + ?b] =>
        is_Zconst a; is_Zconst b;
        let r := eval vm_compute in (a + b) in change (a + b) with r
    | |- context [?a - ?b] =>
        is_Zconst a; is_Zconst b;
        let r := eval vm_compute in (a - b) in change (a - b) with r
    | |- context [?a * ?b] =>
        is_Zconst a; is_Zconst b;
        let r := eval vm_compute in (a * b) in change (a * b) with r
    | |- context [Z.max ?a ?b] =>
        is_Zconst a; is_Zconst b;
        let r := eval vm_compute in (Z.max a b) in change (Z.max a b) with r
    end; cbv iota.

Ltac sim_run :=
  repeat first
    [ rewrite sim_regs_same by auto with drv
    | rewrite sim_regs_fall by auto with drv
    | rewrite sim_regs_rise by auto with drv
    | rewrite sim_tick_low by auto with drv
    | rewrite sim_tick_free by auto with drv
    | progress cbn [sim_ODR sim_DDR sim_pins sim_held sim_pull_in sim_pull_for sim_devices sim_proto]
    | progress fold_consts
    | match goal with
      | |- context [if proto_pulls_low ?p then _ else _] =>
          destruct (proto_pulls_low p)
      end ].

Ltac sim_go :=
  cbn [set_PC_ODR set_PC_DDR PC_ODR PC_DDR PC_IDR SimPort wait_timer nop Nat.iter nat_rect];
  cbv zeta; sim_run.

Lemma write_bit_sim s ids p b :
  bus_at s ids p ->
  bus_at (write_bit b s) ids (proto_slot ids (negb (b =? 0)) p).
Proof.
  intros [(Hd & Hi & Hf) [Hids Hp]].
  destruct s as [odr ddr pins held pin pfor devs proto]. cbn [sim_ODR sim_DDR sim_pins sim_held sim_pull_in sim_pull_for sim_devices sim_proto] in *. subst.
  unfold write_bit. 
  destruct (b =? 0); sim_go; cbn [negb];
  (split; [split; [apply bit6_clear | split; reflexivity] | split; reflexivity]).
Qed.

Lemma bit6_sample pins (hi : bool) :
  (Z.land (Z.lor (Z.land pins 0xBF) (if hi then 0x40 else 0)) 0x40 =? 0) = negb hi.
Proof.
  destruct hi; cbn [negb].
  - apply Z.eqb_neq. intros E. apply (f_equal (fun z => Z.testbit z 6)) in E.
    rewrite Z.land_spec, Z.lor_spec, Z.land_spec in E. 
    rewrite andb_false_r in E. discriminate E.
  - apply Z.eqb_eq. apply Z.bits_inj'. intros n Hn.
    rewrite Z.land_spec, Z.lor_spec, Z.land_spec, Z.bits_0.
    destruct (Z.eq_dec n 6) as [->|Hne].
    + rewrite andb_false_r. reflexivity.
    + replace (Z.testbit 64 n) with false; [apply andb_false_r|].
      symmetry. change 64 with (2^6). apply Z.pow2_bits_false. congruence.
Qed.

Lemma read_bit_sim s ids p :
  bus_at s ids p ->
  exists s', read_bit s = (if proto_pulls_low p then 0 else 1, s')
             /\ bus_at s' ids (proto_slot ids true p).
Proof.
  intros [(Hd & Hi & Hf) [Hids Hp]].
  destruct s as [odr ddr pins held pin pfor devs proto]. cbn [sim_ODR sim_DDR sim_pins sim_held sim_pull_in sim_pull_for sim_devices sim_proto] in *. subst.
  unfold read_bit. sim_go.
  all: unfold sim_line_high; cbn [sim_ODR sim_DDR sim_pins sim_held sim_pull_in sim_pull_for sim_devices sim_proto].
  all: rewrite driving_released; cbn [negb andb]; fold_consts; cbn [negb andb].
  all: rewrite bit6_sample; cbn [negb].
  all: eexists; split; [reflexivity|].
  all: (split; [split; [apply bit6_clear | split; reflexivity] | split; reflexivity]).
Qed.

Lemma reset_pulse_sim s ids p :
  bus_at s ids p ->
  exists s', reset_pulse s = (match ids with [] => 1 | _ => 0 end, s')
             /\ bus_at s' ids (Command 0 0).
Proof.
  intros [(Hd & Hi & Hf) [Hids Hp]].
  destruct s as [odr ddr pins held pin pfor devs proto]. cbn [sim_ODR sim_DDR sim_pins sim_held sim_pull_in sim_pull_for sim_devices sim_proto] in *. subst.
  unfold reset_pulse. destruct ids as [|d ids]; sim_go.
  all: unfold sim_line_high; cbn [sim_ODR sim_DDR sim_pins sim_held sim_pull_in sim_pull_for sim_devices sim_proto].
  all: rewrite driving_released; cbn [negb andb]; fold_consts; cbn [negb andb].
  all: rewrite bit6_sample; cbn [negb].
  all: eexists; split; [reflexivity|].
  all: (split; [split; [apply bit6_clear | split; reflexivity] | split; reflexivity]).
Qed.

Section Link.
Context {W : Type} `{Port W}.

Lemma transmit_byte_eq v (w : W) : transmit_byte v w = Some (write_bits v w).
Proof. reflexivity. Qed.

Lemma transmit_byte_total v (w : W) : is_Some (transmit_byte v w).
Proof. rewrite transmit_byte_eq. eauto. Qed.

Lemma transmit_FoundROM_total g d (w : W) : is_Some (transmit_FoundROM g d w).
Proof.
  unfold transmit_FoundROM.
  change (seqZ 0 8) with [0;1;2;3;4;5;6;7].
  cbn [foldl].
  repeat (cbn [mbind option_bind]; rewrite transmit_byte_eq).
  cbn [mbind option_bind]. eauto.
Qed.

Lemma locals_step pos mk gb :
  (pos < 64)%nat ->
  let l := locals_at pos mk gb in
  u8 (loc_m l + 1) = Z.of_nat (S pos) + 1 /\
  (let k := u8 (Z.shiftl (loc_k l) 1) in
   if k =? 0 then (loc_n l + 1, u8 (k + 1)) else (loc_n l, k))
  = (Z.of_nat (S pos / 8), 2 ^ Z.of_nat (S pos mod 8)).
Proof.
  intros Hpos.
  do 64 (destruct pos as [|pos]; [vm_compute; auto|]). lia.
Qed.

Lemma locals_n_lt pos mk gb :
  (loc_n (locals_at pos mk gb) <? 8) = (pos <? 64)%nat.
Proof.
  cbn [locals_at loc_n].
  destruct (Nat.ltb_spec pos 64) as [Hlt|Hge].
  - apply Z.ltb_lt. pose proof (Nat.Div0.div_lt_upper_bound pos 8 8). lia.
  - apply Z.ltb_ge. pose proof (Nat.Div0.div_le_mono 64 pos 8 Hge).
    change (64 / 8)%nat with 8%nat in *. lia.
Qed.

(** A turn of the loop either breaks, leaving everything but the world as
    it was, or moves on to the next bit position. *)
Lemma Next_body_cases g (w : W) pos mk gb :
  (pos < 64)%nat ->
  exists g' w' l' brk,
    Next_body g w (locals_at pos mk gb) = (g', w', l', brk) /\
    (brk = true /\ g' = g /\ l' = locals_at pos mk gb
     \/ brk = false /\ (exists mk' gb', l' = locals_at (S pos) mk' gb') /\
        numROMs g' = numROMs g /\ past_ROM g' = past_ROM g /\
        lastDiscrep g' = lastDiscrep g /\ doneFlag g' = doneFlag g).
Proof.
  intros Hpos. unfold Next_body.
  destruct (read_bit w) as [b1 w1]. destruct (read_bit w1) as [b2 w2].
  destruct (_ =? 3).
  - do 4 eexists. split; [reflexivity|]. left. auto.
  - destruct (locals_step pos mk gb Hpos) as [Hm Hnk].
    cbv zeta in Hnk.
    match goal with
    | |- context [let '(gbit, dm) := ?e in _] => destruct e as [gbit dm]
    end.
    rewrite Hm, Hnk.
    do 4 eexists. split; [reflexivity|]. right. split; [reflexivity|].
    split; [eauto|]. destruct (gbit =? 1); repeat split; reflexivity.
Qed.

Lemma Next_continue_total n : forall pos fuel g (w : W) mk gb,
  (pos + n = 64)%nat -> (n <= fuel)%nat ->
  is_Some (Next_continue fuel g w (locals_at pos mk gb)).
Proof.
  induction n as [|n IH]; intros pos fuel g w mk gb Hpos Hfuel;
    unfold Next_continue; rewrite locals_n_lt.
  - replace (pos <? 64)%nat with false by (symmetry; apply Nat.ltb_ge; lia).
    eauto.
  - replace (pos <? 64)%nat with true by (symmetry; apply Nat.ltb_lt; lia).
    destruct fuel as [|fuel]; [lia|]. cbn [Next_loop].
    destruct (Next_body_cases g w pos mk gb) as (g' & w' & l' & brk & -> & Hc);
      [lia|].
    destruct Hc as [(-> & _) | (-> & (mk' & gb' & ->) & _)]; [eauto|].
    apply (IH (S pos) fuel g' w' mk' gb'); lia.
Qed.

Lemma Next_loop_continue g (w : W) :
  Next_loop 64 g w (mkLocals 1 0 1 0 0) = Next_continue 64 g w (locals_at 0 0 0).
Proof. reflexivity. Qed.

Theorem Next_total g (w : W) : is_Some (Next g w).
Proof.
  unfold Next. destruct (reset_pulse w) as [r w1].
  destruct (_ || _); [eauto|].
  rewrite transmit_byte_eq. cbn [mbind option_bind].
  rewrite Next_loop_continue.
  destruct (Next_continue_total 64 0 64 g (write_bits 240 w1) 0 0) as [[[g' w'] l'] ->];
    [lia..|].
  cbn [mbind option_bind]. destruct (_ || _); eauto.
Qed.
End Link.

(** * Bytes and identifier bits *)

Lemma get1_set1 a i j v :
  0 <= i -> 0 <= j -> (Z.to_nat i < length a)%nat ->
  get1 (set1 a i v) j = if i =? j then v else get1 a j.
Proof.
  intros Hi Hj Hlen. unfold get1, set1.
  destruct (Z.eqb_spec i j) as [->|Hne].
  - rewrite list_lookup_insert_eq by assumption. reflexivity.
  - rewrite list_lookup_insert_ne by lia. reflexivity.
Qed.

Lemma byte_bits_ext x y :
  0 <= x < 256 -> 0 <= y < 256 ->
  (forall i, (i < 8)%nat -> Z.testbit x (Z.of_nat i) = Z.testbit y (Z.of_nat i)) ->
  x = y.
Proof.
  intros Hx Hy Hbits.
  rewrite <- (Z.mod_small x 256), <- (Z.mod_small y 256) by lia.
  change 256 with (2 ^ 8). apply Z.bits_inj'. intros n Hn.
  destruct (Z.lt_ge_cases n 8) as [Hlt|Hge].
  - rewrite !Z.mod_pow2_bits_low by lia.
    rewrite <- (Z2Nat.id n) by lia. apply Hbits. lia.
  - rewrite !Z.mod_pow2_bits_high by lia. reflexivity.
Qed.

Lemma pos_split (p q : nat) :
  p = q <-> (p / 8 = q / 8 /\ p mod 8 = q mod 8)%nat.
Proof.
  split; [intros ->; auto|]. intros [Hd Hm].
  rewrite (Nat.div_mod_eq p 8), (Nat.div_mod_eq q 8). congruence.
Qed.

Lemma mask_bit (i j : nat) :
  Z.testbit (2 ^ Z.of_nat i) (Z.of_nat j) = bool_decide (i = j).
Proof.
  rewrite Z.pow2_bits_eqb by lia.
  destruct (Z.eqb_spec (Z.of_nat i) (Z.of_nat j)); case_bool_decide; auto; lia.
Qed.

Lemma clear_mask_bit (i j : nat) :
  (j < 8)%nat ->
  Z.testbit (u8 (Z.lnot (2 ^ Z.of_nat i))) (Z.of_nat j) = negb (bool_decide (i = j)).
Proof.
  intros Hj. unfold u8. change 256 with (2 ^ 8).
  rewrite Z.mod_pow2_bits_low by lia.
  rewrite Z.lnot_spec by lia. rewrite mask_bit. reflexivity.
Qed.

Lemma id_bit_rom_store rom pos b q :
  length rom = 8%nat -> (pos < 64)%nat ->
  id_bit (rom_store rom pos b) q = if bool_decide (q = pos) then b else id_bit rom q.
Proof.
  intros Hlen Hpos. unfold id_bit, rom_store.
  assert (Hn : (pos / 8 < 8)%nat) by (apply Nat.Div0.div_lt_upper_bound; lia).
  assert (Hq8 : (q mod 8 < 8)%nat) by (apply Nat.mod_upper_bound; lia).
  destruct b.
  - rewrite get1_set1 by lia.
    destruct (Z.eqb_spec (Z.of_nat (pos / 8)) (Z.of_nat (q / 8))) as [E|E].
    + rewrite Z.lor_spec, mask_bit. rewrite <- E.
      destruct (decide (q = pos)) as [->|Hp].
      * rewrite !bool_decide_true by reflexivity. apply orb_true_r.
      * rewrite (bool_decide_false (q = pos)) by assumption.
        rewrite bool_decide_false; [apply orb_false_r|].
        intros Hm. apply Hp. apply pos_split. split; [lia|congruence].
    + case_bool_decide as Hp; [subst; lia|reflexivity].
  - rewrite get1_set1 by lia.
    destruct (Z.eqb_spec (Z.of_nat (pos / 8)) (Z.of_nat (q / 8))) as [E|E].
    + rewrite Z.land_spec, clear_mask_bit by assumption. rewrite <- E.
      destruct (decide (q = pos)) as [->|Hp].
      * rewrite !bool_decide_true by reflexivity. apply andb_false_r.
      * rewrite (bool_decide_false (q = pos)) by assumption.
        rewrite bool_decide_false; [apply andb_true_r|].
        intros Hm. apply Hp. apply pos_split. split; [lia|congruence].
    + case_bool_decide as Hp; [subst; lia|reflexivity].
Qed.

Lemma byte_range_bits x :
  0 <= x < 256 <-> (0 <= x /\ forall n, 8 <= n -> Z.testbit x n = false).
Proof.
  split.
  - intros Hx. split; [lia|]. intros n Hn.
    rewrite <- (Z.mod_small x 256) by lia. change 256 with (2 ^ 8).
    apply Z.mod_pow2_bits_high. lia.
  - intros [H0 Hhi]. split; [lia|].
    assert (x = x mod 2 ^ 8) as ->.
    { apply Z.bits_inj'. intros n Hn.
      destruct (Z.lt_ge_cases n 8).
      - rewrite Z.mod_pow2_bits_low by lia. reflexivity.
      - rewrite Z.mod_pow2_bits_high, Hhi by lia. reflexivity. }
    apply Z.mod_pos_bound. lia.
Qed.

Lemma byte_lor_mask x i :
  0 <= x < 256 -> (i < 8)%nat -> 0 <= Z.lor x (2 ^ Z.of_nat i) < 256.
Proof.
  intros Hx Hi. apply byte_range_bits. apply byte_range_bits in Hx as [H0 Hhi].
  split.
  - apply Z.lor_nonneg. split; [lia|]. apply Z.pow_nonneg. lia.
  - intros n Hn. rewrite Z.lor_spec, Hhi by lia.
    rewrite Z.pow2_bits_false by lia. reflexivity.
Qed.

Lemma byte_land x y : 0 <= x < 256 -> 0 <= Z.land x y < 256.
Proof.
  intros Hx. apply byte_range_bits. apply byte_range_bits in Hx as [H0 Hhi].
  split.
  - apply Z.land_nonneg. auto.
  - intros n Hn. rewrite Z.land_spec, Hhi by lia. reflexivity.
Qed.

Lemma get1_byte a i :
  Forall (fun b => 0 <= b < 256) a -> 0 <= get1 a i < 256.
Proof.
  intros Ha. unfold get1. destruct (a !! Z.to_nat i) eqn:E; cbn; [|lia].
  apply (Forall_lookup_1 _ _ _ _ Ha E).
Qed.

Lemma wf_id_rom_store rom pos b :
  wf_id rom -> (pos < 64)%nat -> wf_id (rom_store rom pos b).
Proof.
  intros [Hlen Hb] Hpos. unfold rom_store, set1.
  assert (Hq8 : (pos mod 8 < 8)%nat) by (apply Nat.mod_upper_bound; lia).
  destruct b; split; rewrite ?length_insert; auto; apply Forall_insert; auto.
  - apply byte_lor_mask; auto using get1_byte.
  - apply byte_land; auto using get1_byte.
Qed.

Lemma id_ext a b :
  wf_id a -> wf_id b ->
  (forall q, (q < 64)%nat -> id_bit a q = id_bit b q) -> a = b.
Proof.
  intros [Hla Ha] [Hlb Hb] Hbits. apply list_eq. intros i.
  destruct (Nat.lt_ge_cases i 8) as [Hi|Hi].
  - destruct (lookup_lt_is_Some_2 a i) as [x Hx]; [lia|].
    destruct (lookup_lt_is_Some_2 b i) as [y Hy]; [lia|].
    rewrite Hx, Hy. f_equal. apply byte_bits_ext.
    + apply (Forall_lookup_1 _ _ _ _ Ha Hx).
    + apply (Forall_lookup_1 _ _ _ _ Hb Hy).
    + intros j Hj. specialize (Hbits (8 * i + j)%nat ltac:(lia)).
      unfold id_bit, get1 in Hbits.
      replace ((8 * i + j) / 8)%nat with i in Hbits
        by (rewrite Nat.mul_comm, Nat.div_add_l, (Nat.div_small j 8) by lia; lia).
      replace ((8 * i + j) mod 8)%nat with j in Hbits
        by (rewrite Nat.add_comm, Nat.mul_comm, Nat.Div0.mod_add, Nat.mod_small by lia; lia).
      rewrite Nat2Z.id, Hx, Hy in Hbits. exact Hbits.
  - rewrite !lookup_ge_None_2 by lia. reflexivity.
Qed.

(** The test [(ROM[n] & k) > 0] reads the identifier bit. *)
Lemma land_mask_test x (i : nat) :
  0 <= x -> (0 <? Z.land x (2 ^ Z.of_nat i)) = Z.testbit x (Z.of_nat i).
Proof.
  intros Hx.
  assert (E : Z.land x (2 ^ Z.of_nat i) = if Z.testbit x (Z.of_nat i) then 2 ^ Z.of_nat i else 0).
  { apply Z.bits_inj'. intros n Hn. rewrite Z.land_spec, Z.pow2_bits_eqb by lia.
    destruct (Z.eqb_spec (Z.of_nat i) n) as [<-|Hne].
    - destruct (Z.testbit x (Z.of_nat i)); cbn [andb].
      + rewrite Z.pow2_bits_true by lia. reflexivity.
      + rewrite Z.bits_0. reflexivity.
    - rewrite andb_false_r. destruct (Z.testbit x (Z.of_nat i)).
      + rewrite Z.pow2_bits_false by lia. reflexivity.
      + rewrite Z.bits_0. reflexivity. }
  rewrite E. destruct (Z.testbit x (Z.of_nat i)).
  - apply Z.ltb_lt. apply Z.pow_pos_nonneg; lia.
  - reflexivity.
Qed.

Section Body.
Context {W : Type} `{Port W}.

Lemma u8_c_bool b : u8 (c_bool b) = c_bool b.
Proof. destruct b; reflexivity. Qed.

Lemma c_bool_eqb_1 b : (c_bool b =? 1) = b.
Proof. destruct b; reflexivity. Qed.

Lemma c_bool_eqb_0 b : (c_bool b =? 0) = negb b.
Proof. destruct b; reflexivity. Qed.

Lemma Next_body_reads g (w w1 w2 : W) pos mk gb b1 b2 :
  (pos < 64)%nat -> 0 <= get1 (ROM g) (Z.of_nat (pos / 8)) ->
  read_bit w = (b1, w1) -> read_bit w1 = (b2, w2) ->
  Next_body g w (locals_at pos mk gb) =
    if (b1 =? 1) && (b2 =? 1) then (g, w2, locals_at pos mk gb, true)
    else
      let gbit := chosen_bit g pos b1 b2 in
      (with_ROM (rom_store (ROM g) pos gbit) g,
       write_bit (c_bool gbit) w2,
       locals_at (S pos) (new_marker g pos b1 b2 mk) (c_bool gbit),
       false).
Proof.
  intros Hpos Hrom Hr1 Hr2. unfold Next_body. rewrite Hr1, Hr2.
  destruct (locals_step pos mk gb Hpos) as [Hm Hnk]. cbv zeta in Hnk.
  unfold new_marker, chosen_bit.
  cbn [loc_m loc_n loc_k loc_discrepMarker locals_at] in *.
  destruct (b1 =? 1); destruct (b2 =? 1); cbn [andb orb].
  - reflexivity.
  - change (Z.lor 2 1 =? 3) with true. change (2 =? 3) with false.
    change (0 <? 2) with true. change (u8 (Z.shiftr 2 1)) with 1.
    cbv iota. change (1 =? 1) with true. cbv iota.
    rewrite Hm, Hnk. reflexivity.
  - change (Z.lor 0 1 =? 3) with false.
    change (0 <? Z.lor 0 1) with true. change (u8 (Z.shiftr (Z.lor 0 1) 1)) with 0.
    cbv iota. change (0 =? 1) with false. cbv iota.
    rewrite Hm, Hnk. reflexivity.
  - change (0 =? 3) with false. change (0 <? 0) with false. cbv iota.
    rewrite !u8_c_bool, land_mask_test by assumption.
    fold (id_bit (ROM g) pos).
    destruct (Z.of_nat pos + 1 <? lastDiscrep g);
      rewrite c_bool_eqb_0, c_bool_eqb_1, Hm, Hnk; unfold rom_store;
      match goal with |- context [negb ?b] => destruct b end; reflexivity.
Qed.
End Body.

(** * The visiting order *)

Lemma existsb_filter {A} (f : A -> bool) (l : list A) :
  existsb f l = match List.filter f l with [] => false | _ => true end.
Proof.
  induction l as [|a l IH]; cbn; [reflexivity|].
  destruct (f a); cbn; auto.
Qed.

Lemma filter_In_elem {A} (f : A -> bool) (l : list A) x :
  x ∈ List.filter f l <-> x ∈ l /\ f x = true.
Proof. rewrite !list_elem_of_In. apply List.filter_In. Qed.

Lemma zeros_ones_nil pos P : zeros_at pos P = [] -> ones_at pos P = [] -> P = [].
Proof.
  unfold zeros_at, ones_at. destruct P as [|d P]; [reflexivity|]. cbn.
  destruct (id_bit d pos); cbn; discriminate.
Qed.

Lemma zeros_ones_perm pos P : zeros_at pos P ++ ones_at pos P ≡ₚ P.
Proof.
  unfold zeros_at, ones_at. induction P as [|d P IH]; cbn; [reflexivity|].
  destruct (id_bit d pos); cbn.
  - rewrite <- Permutation_middle. constructor. exact IH.
  - constructor. exact IH.
Qed.

Lemma search_order_nil n : search_order n [] = [].
Proof. induction n as [|n IH]; cbn; [reflexivity|]. rewrite IH. reflexivity. Qed.

Lemma search_order_S n P :
  search_order (S n) P =
    let pos := (63 - n)%nat in
    match ones_at pos P with
    | [] => search_order n (zeros_at pos P)
    | _ => map (fun e => (fst e, if snd e =? 0 then Z.of_nat pos + 1 else snd e))
               (search_order n (zeros_at pos P))
           ++ search_order n (ones_at pos P)
    end.
Proof.
  cbn [search_order]. cbv zeta.
  destruct (ones_at (63 - n) P) eqn:E; [|reflexivity].
  rewrite search_order_nil, app_nil_r. reflexivity.
Qed.

Lemma search_order_nonnil n P : P <> [] -> search_order n P <> [].
Proof.
  revert P. induction n as [|n IH]; intros P HP.
  - destruct P; [contradiction|discriminate].
  - rewrite search_order_S. cbv zeta.
    destruct (ones_at (63 - n) P) eqn:E1.
    + apply IH. intros E0. apply HP. eapply zeros_ones_nil; eauto.
    + intros Happ. apply app_eq_nil in Happ as [_ Happ].
      revert Happ. apply IH. discriminate.
Qed.

Lemma search_order_In n P d mk :
  (d, mk) ∈ search_order n P -> d ∈ P.
Proof.
  revert P d mk. induction n as [|n IH]; intros P d mk Hin.
  - destruct P as [|d0 P]; [inversion Hin|].
    apply list_elem_of_singleton in Hin. injection Hin as -> _. left.
  - rewrite search_order_S in Hin. cbv zeta in Hin.
    destruct (ones_at (63 - n) P) eqn:E1.
    + apply IH in Hin. apply filter_In_elem in Hin. tauto.
    + rewrite <- E1 in Hin. apply elem_of_app in Hin as [Hin|Hin].
      * apply list_elem_of_fmap in Hin as ([d' mk'] & Heq & Hin).
        cbn in Heq. injection Heq as -> _.
        apply IH in Hin. apply filter_In_elem in Hin. tauto.
      * apply IH in Hin. apply filter_In_elem in Hin. tauto.
Qed.

Lemma search_order_marker n P d mk :
  (n <= 64)%nat -> (d, mk) ∈ search_order n P ->
  mk = 0 \/ Z.of_nat (64 - n) < mk <= 64.
Proof.
  revert P d mk. induction n as [|n IH]; intros P d mk Hn Hin.
  - destruct P as [|d0 P]; [inversion Hin|].
    apply list_elem_of_singleton in Hin. injection Hin as _ ->. auto.
  - rewrite search_order_S in Hin. cbv zeta in Hin.
    destruct (ones_at (63 - n) P) eqn:E1.
    + apply IH in Hin; lia.
    + rewrite <- E1 in Hin. apply elem_of_app in Hin as [Hin|Hin].
      * apply list_elem_of_fmap in Hin as ([d' mk'] & Heq & Hin).
        cbn in Heq. injection Heq as -> ->.
        apply IH in Hin; [|lia]. destruct (Z.eqb_spec mk' 0); lia.
      * apply IH in Hin; lia.
Qed.

Lemma search_order_last n P i d mk :
  search_order n P !! i = Some (d, mk) ->
  (mk = 0 <-> S i = length (search_order n P)).
Proof.
  revert P i d mk. induction n as [|n IH]; intros P i d mk Hi.
  - destruct P as [|d0 P]; [discriminate|]. cbn in *.
    destruct i; [|discriminate]. injection Hi as _ <-. tauto.
  - rewrite search_order_S in *. cbv zeta in *.
    destruct (ones_at (63 - n) P) eqn:E1; [eauto|]. rewrite <- E1 in *.
    assert (HE1 : search_order n (ones_at (63 - n) P) <> [])
      by (apply search_order_nonnil; rewrite E1; discriminate).
    assert (0 < length (search_order n (ones_at (63 - n) P)))%nat
      by (destruct (search_order n (ones_at (63 - n) P)); [contradiction|cbn; lia]).
    rewrite length_app, length_map.
    apply lookup_app_Some in Hi as [Hi|[Hlen Hi]].
    + pose proof (lookup_lt_Some _ _ _ Hi) as Hlt. rewrite length_map in Hlt.
      rewrite list_lookup_fmap in Hi.
      destruct (search_order n (zeros_at (63 - n) P) !! i) as [[d' mk']|];
        [|discriminate].
      cbn in Hi. injection Hi as -> <-.
      split; [|lia]. destruct (Z.eqb_spec mk' 0); lia.
    + rewrite length_map in *. apply IH in Hi. rewrite Hi. lia.
Qed.

Lemma search_command_sim s ids p :
  bus_at s ids p ->
  exists s1 s2,
    reset_pulse s = (match ids with [] => 1 | _ => 0 end, s1) /\
    transmit_byte 0xF0 s1 = Some s2 /\
    bus_at s2 ids (Searching ids 0 SendBit).
Proof.
  intros Hs. destruct (reset_pulse_sim s ids p Hs) as (s1 & Hr & Hs1).
  exists s1, (write_bits 0xF0 s1). split; [exact Hr|].
  split; [apply transmit_byte_eq|].
  unfold write_bits. cbn [foldl].
  repeat match goal with
         | |- context [if ?c then write_bit 0 ?x else write_bit 1 ?x] =>
             let r := eval vm_compute in c in
             change (if c then write_bit 0 x else write_bit 1 x)
               with (if r then write_bit 0 x else write_bit 1 x);
             cbv iota
         end.
  do 8 (eapply write_bit_sim in Hs1).
  exact Hs1.
Qed.

Lemma sim_reads_not_both P pos :
  P <> [] -> (sim_b1 P pos =? 1) && (sim_b2 P pos =? 1) = false.
Proof.
  intros HP. unfold sim_b1, sim_b2. rewrite !existsb_filter.
  fold (zeros_at pos P). fold (ones_at pos P).
  destruct (zeros_at pos P) eqn:E0; destruct (ones_at pos P) eqn:E1; try reflexivity.
  exfalso. apply HP. eapply zeros_ones_nil; eauto.
Qed.

Lemma filter_eqb_true pos P :
  List.filter (fun d => Bool.eqb (id_bit d pos) true) P = ones_at pos P.
Proof. apply List.filter_ext. intros d. destruct (id_bit d pos); reflexivity. Qed.

Lemma filter_eqb_false pos P :
  List.filter (fun d => Bool.eqb (id_bit d pos) false) P = zeros_at pos P.
Proof. apply List.filter_ext. intros d. destruct (id_bit d pos); reflexivity. Qed.

Lemma Next_body_sim g w ids P pos mk gb :
  (pos < 64)%nat -> P <> [] -> wf_id (ROM g) ->
  bus_at w ids (Searching P pos SendBit) ->
  let gbit := chosen_bit g pos (sim_b1 P pos) (sim_b2 P pos) in
  exists w',
    Next_body g w (locals_at pos mk gb) =
      (with_ROM (rom_store (ROM g) pos gbit) g, w',
       locals_at (S pos) (new_marker g pos (sim_b1 P pos) (sim_b2 P pos) mk)
                 (c_bool gbit), false) /\
    bus_at w' ids (search_proto (if gbit then ones_at pos P else zeros_at pos P)
                                (S pos)).
Proof.
  intros Hpos HP Hwf Hw gbit.
  destruct (read_bit_sim w ids _ Hw) as (w1 & Hr1 & Hw1).
  destruct (read_bit_sim w1 ids _ Hw1) as (w2 & Hr2 & Hw2).
  cbn [proto_slot proto_pulls_low] in *.
  fold (sim_b1 P pos) in Hr1. fold (sim_b2 P pos) in Hr2.
  eexists. split.
  - erewrite Next_body_reads; eauto.
    + rewrite sim_reads_not_both by assumption. reflexivity.
    + apply get1_byte. apply Hwf.
  - apply (write_bit_sim _ _ _ (c_bool gbit)) in Hw2.
    rewrite c_bool_eqb_0, negb_involutive in Hw2.
    cbn [proto_slot] in Hw2. unfold search_proto.
    destruct (Nat.eqb_spec pos 63) as [->|Hne].
    + exact Hw2.
    + replace (S pos <? 64)%nat with true by (symmetry; apply Nat.ltb_lt; lia).
      subst gbit. destruct (chosen_bit g pos (sim_b1 P pos) (sim_b2 P pos));
        rewrite ?filter_eqb_true, ?filter_eqb_false in Hw2; exact Hw2.
Qed.

Lemma sim_b1_zeros P pos :
  sim_b1 P pos = match zeros_at pos P with [] => 1 | _ => 0 end.
Proof. unfold sim_b1. rewrite existsb_filter. fold (zeros_at pos P). destruct (zeros_at pos P); reflexivity. Qed.

Lemma sim_b2_ones P pos :
  sim_b2 P pos = match ones_at pos P with [] => 1 | _ => 0 end.
Proof. unfold sim_b2. rewrite existsb_filter. fold (ones_at pos P). destruct (ones_at pos P); reflexivity. Qed.

Lemma zeros_at_bit pos P d : d ∈ zeros_at pos P -> id_bit d pos = false.
Proof. intros Hd. apply filter_In_elem in Hd as [_ Hd]. destruct (id_bit d pos); [discriminate|reflexivity]. Qed.

Lemma ones_at_bit pos P d : d ∈ ones_at pos P -> id_bit d pos = true.
Proof. intros Hd. apply filter_In_elem in Hd as [_ Hd]. exact Hd. Qed.

Lemma marker_nonzero (mk0 p : Z) : 0 <= p -> (if mk0 =? 0 then p + 1 else mk0) <> 0.
Proof. intros Hp. destruct (Z.eqb_spec mk0 0); lia. Qed.

Lemma target_step n pos P g d mkd mk :
  (S pos + n = 64)%nat -> P <> [] -> length (ROM g) = 8%nat ->
  pass_target (S n) pos P g d mkd ->
  let gbit := chosen_bit g pos (sim_b1 P pos) (sim_b2 P pos) in
  let P' := if gbit then ones_at pos P else zeros_at pos P in
  let g1 := with_ROM (rom_store (ROM g) pos gbit) g in
  let mk' := new_marker g pos (sim_b1 P pos) (sim_b2 P pos) mk in
  P' <> [] /\ (forall e, e ∈ P' -> id_bit e pos = gbit) /\
  exists mkd', pass_target n (S pos) P' g1 d mkd' /\
               (if mkd' =? 0 then mk' else mkd') = (if mkd =? 0 then mk else mkd).
Proof.
  intros Hn HP Hlen Ht. cbv zeta.
  assert (Hpos : (63 - n)%nat = pos) by lia.
  assert (Hsuffix : forall b prev,
             (forall q, (pos <= q < 64)%nat -> id_bit prev q = id_bit (ROM g) q) ->
             forall q, (S pos <= q < 64)%nat ->
                       id_bit prev q = id_bit (rom_store (ROM g) pos b) q).
  { intros b prev Hs q Hq. rewrite id_bit_rom_store by lia.
    rewrite bool_decide_false by lia. apply Hs. lia. }
  unfold pass_target in Ht. rewrite search_order_S in Ht. cbv zeta in Ht.
  rewrite Hpos in Ht.
  unfold new_marker, chosen_bit. rewrite sim_b1_zeros, sim_b2_ones.
  destruct (zeros_at pos P) as [|z0 Z0] eqn:E0;
    destruct (ones_at pos P) as [|o1 O1] eqn:E1.
  - exfalso. apply HP. eapply zeros_ones_nil; eauto.
  - (* all remaining devices send 1 *)
    change (1 =? 1) with true. cbn [orb]. cbv iota. rewrite <- E1 in *.
    rewrite search_order_nil in Ht. cbn [map app] in Ht.
    split; [rewrite E1; discriminate|]. split; [apply ones_at_bit|].
    exists mkd. split; [|reflexivity].
    destruct Ht as [[HL H0]|[HL (i & prev & Hi & Hs & HSi)]].
    + left. split; [cbn [lastDiscrep with_ROM]; lia|exact H0].
    + right. cbn [lastDiscrep with_ROM ROM].
      pose proof (search_order_marker n _ prev (lastDiscrep g) ltac:(lia)
                    (list_elem_of_lookup_2 _ _ _ Hi)) as Hr.
      split; [lia|]. exists i, prev. split; [exact Hi|]. split; [|exact HSi].
      apply Hsuffix, Hs.
  - (* all remaining devices send 0 *)
    change (0 =? 1) with false. change (1 =? 1) with true. cbn [orb]. cbv iota.
    rewrite <- E0 in *.
    split; [rewrite E0; discriminate|]. split; [apply zeros_at_bit|].
    exists mkd. split; [|reflexivity].
    destruct Ht as [[HL H0]|[HL (i & prev & Hi & Hs & HSi)]].
    + left. split; [cbn [lastDiscrep with_ROM]; lia|exact H0].
    + right. cbn [lastDiscrep with_ROM ROM].
      pose proof (search_order_marker n _ prev (lastDiscrep g) ltac:(lia)
                    (list_elem_of_lookup_2 _ _ _ Hi)) as Hr.
      split; [lia|]. exists i, prev. split; [exact Hi|]. split; [|exact HSi].
      apply Hsuffix, Hs.
  - (* a discrepancy *)
    change (0 =? 1) with false. cbn [orb]. cbv iota.
    rewrite <- E0, <- E1 in *.
    assert (HZ : zeros_at pos P <> []) by (rewrite E0; discriminate).
    assert (HO : ones_at pos P <> []) by (rewrite E1; discriminate).
    set (f := fun e : list Z * Z =>
                (fst e, if snd e =? 0 then Z.of_nat pos + 1 else snd e)) in *.
    destruct Ht as [[HL H0]|[HL (i & prev & Hi & Hs & HSi)]].
    + (* first visit of this position: take 0, mark it *)
      replace (Z.of_nat pos + 1 <? lastDiscrep g) with false
        by (symmetry; apply Z.ltb_ge; lia).
      replace (Z.of_nat pos + 1 =? lastDiscrep g) with false
        by (symmetry; apply Z.eqb_neq; lia).
      split; [exact HZ|]. split; [apply zeros_at_bit|].
      pose proof (search_order_nonnil n _ HZ) as HE0.
      destruct (search_order n (zeros_at pos P)) as [|[d0 mk0] E0'] eqn:EE0;
        [contradiction|].
      cbn in H0. injection H0 as <- <-.
      exists mk0. split.
      * left. split; [cbn [lastDiscrep with_ROM]; lia|]. rewrite EE0. reflexivity.
      * cbn [fst snd]. pose proof (marker_nonzero mk0 (Z.of_nat pos) ltac:(lia)) as Hnz.
        destruct (Z.eqb_spec mk0 0) as [->|Hmk0].
        -- change (Z.of_nat pos + 1 =? 0) with (Z.of_nat pos + 1 =? 0).
           replace (Z.of_nat pos + 1 =? 0) with false by (symmetry; apply Z.eqb_neq; lia).
           reflexivity.
        -- replace (mk0 =? 0) with false by (symmetry; apply Z.eqb_neq; lia).
           reflexivity.
    + apply lookup_app_Some in Hi as [Hi|[Hge Hi]];
        apply lookup_app_Some in HSi as [HSi|[HSge HSi]];
        rewrite ?length_map in *.
      * (* previous and next identifier both in the 0 branch *)
        rewrite list_lookup_fmap in Hi, HSi.
        destruct (search_order n (zeros_at pos P) !! i) as [[p0 mk0]|] eqn:Ei;
          [|discriminate].
        destruct (search_order n (zeros_at pos P) !! S i) as [[d0 mk0']|] eqn:ESi;
          [|discriminate].
        cbn in Hi, HSi. injection Hi as -> HLeq. injection HSi as -> <-.
        pose proof (search_order_last _ _ _ _ _ Ei) as Hlast.
        pose proof (lookup_lt_Some _ _ _ ESi) as Hlt.
        assert (Hmk0 : mk0 <> 0) by (intros ->; lia).
        replace (mk0 =? 0) with false in HLeq by (symmetry; apply Z.eqb_neq; lia).
        pose proof (search_order_marker n _ _ _ ltac:(lia)
                      (list_elem_of_lookup_2 _ _ _ Ei)) as Hr.
        replace (Z.of_nat pos + 1 <? lastDiscrep g) with true
          by (symmetry; apply Z.ltb_lt; lia).
        assert (Hb : id_bit (ROM g) pos = false).
        { rewrite <- Hs by lia. eapply zeros_at_bit.
          eapply search_order_In, list_elem_of_lookup_2, Ei. }
        rewrite Hb.
        split; [exact HZ|]. split; [apply zeros_at_bit|].
        exists mk0'. split.
        -- right. cbn [lastDiscrep with_ROM ROM]. split; [lia|].
           exists i, prev. rewrite <- HLeq. split; [exact Ei|].
           split; [apply Hsuffix, Hs|exact ESi].
        -- cbn [snd]. pose proof (marker_nonzero mk0' (Z.of_nat pos) ltac:(lia)) as Hnz.
           destruct (Z.eqb_spec mk0' 0) as [->|Hne].
           ++ replace (Z.of_nat pos + 1 =? 0) with false by (symmetry; apply Z.eqb_neq; lia).
              reflexivity.
           ++ replace (mk0' =? 0) with false by (symmetry; apply Z.eqb_neq; lia).
              reflexivity.
      * (* previous identifier was the last of the 0 branch: take 1 now *)
        rewrite list_lookup_fmap in Hi.
        destruct (search_order n (zeros_at pos P) !! i) as [[p0 mk0]|] eqn:Ei;
          [|discriminate].
        cbn in Hi. injection Hi as -> HLeq.
        pose proof (search_order_last _ _ _ _ _ Ei) as Hlast.
        pose proof (lookup_lt_Some _ _ _ Ei) as Hlt.
        assert (Hmk0 : mk0 = 0) by (apply Hlast; lia). subst mk0.
        change (0 =? 0) with true in HLeq. cbv iota in HLeq.
        replace (Z.of_nat pos + 1 <? lastDiscrep g) with false
          by (symmetry; apply Z.ltb_ge; lia).
        replace (Z.of_nat pos + 1 =? lastDiscrep g) with true
          by (symmetry; apply Z.eqb_eq; lia).
        split; [exact HO|]. split; [apply ones_at_bit|].
        exists mkd. split; [|reflexivity].
        left. cbn [lastDiscrep with_ROM]. split; [lia|].
        replace (S i - length (search_order n (zeros_at pos P)))%nat with 0%nat in HSi
          by lia.
        exact HSi.
      * exfalso. pose proof (lookup_lt_Some _ _ _ HSi) as Hlt.
        rewrite length_map in Hlt. lia.
      * (* both in the 1 branch *)
        pose proof (search_order_marker n _ _ _ ltac:(lia)
                      (list_elem_of_lookup_2 _ _ _ Hi)) as Hr.
        replace (Z.of_nat pos + 1 <? lastDiscrep g) with true
          by (symmetry; apply Z.ltb_lt; lia).
        assert (Hb : id_bit (ROM g) pos = true).
        { rewrite <- Hs by lia. eapply ones_at_bit.
          eapply search_order_In, list_elem_of_lookup_2, Hi. }
        rewrite Hb.
        split; [exact HO|]. split; [apply ones_at_bit|].
        exists mkd. split; [|reflexivity].
        right. cbn [lastDiscrep with_ROM ROM]. split; [lia|].
        eexists _, prev. split; [exact Hi|]. split; [apply Hsuffix, Hs|].
        replace (S (i - length (search_order n (zeros_at pos P))))%nat
          with (S i - length (search_order n (zeros_at pos P)))%nat by lia.
        exact HSi.
Qed.

Lemma with_ROM_same g : with_ROM (ROM g) g = g.
Proof. destruct g; reflexivity. Qed.

Lemma wf_id_filter f P : Forall wf_id P -> Forall wf_id (List.filter f P).
Proof.
  intros HP. apply Forall_forall. intros d Hd.
  apply filter_In_elem in Hd as [Hd _]. eapply Forall_forall in HP; eauto.
Qed.

Lemma search_pass n : forall pos fuel P g w mk gb ids d mkd,
  (pos + n = 64)%nat -> (n <= fuel)%nat -> P <> [] ->
  wf_id (ROM g) -> Forall wf_id P ->
  (forall e q, e ∈ P -> (q < pos)%nat -> id_bit e q = id_bit (ROM g) q) ->
  bus_at w ids (search_proto P pos) ->
  pass_target n pos P g d mkd ->
  exists w' gb',
    Next_continue fuel g w (locals_at pos mk gb)
    = Some (with_ROM d g, w', locals_at 64 (if mkd =? 0 then mk else mkd) gb')
    /\ bus_at w' ids Idle.
Proof.
  induction n as [|n IH];
    intros pos fuel P g w mk gb ids d mkd Hpos Hfuel HP Hwf HwfP Hpre Hw Ht;
    unfold Next_continue; rewrite locals_n_lt.
  - assert (pos = 64%nat) as -> by lia.
    change (64 <? 64)%nat with false. cbv iota.
    destruct P as [|d0 P]; [contradiction|].
    destruct Ht as [[_ H0]|[HL (i & prev & Hi & _)]].
    + cbn in H0. injection H0 as <- <-.
      assert (d0 = ROM g) as ->.
      { apply id_ext; auto.
        - eapply Forall_forall in HwfP; [exact HwfP|left].
        - intros q Hq. apply Hpre; [left|lia]. }
      rewrite with_ROM_same. exists w, gb. split; [reflexivity|exact Hw].
    + cbn in Hi. destruct i; [|discriminate]. injection Hi as _ HL0. lia.
  - assert (Hlt : (pos < 64)%nat) by lia.
    replace (pos <? 64)%nat with true by (symmetry; apply Nat.ltb_lt; lia).
    destruct fuel as [|fuel]; [lia|]. cbn [Next_loop].
    unfold search_proto in Hw.
    replace (pos <? 64)%nat with true in Hw by (symmetry; apply Nat.ltb_lt; lia).
    destruct (Next_body_sim g w ids P pos mk gb Hlt HP Hwf Hw) as (w1 & Hbody & Hw1).
    rewrite Hbody.
    destruct (target_step n pos P g d mkd mk ltac:(lia) HP (proj1 Hwf) Ht)
      as (HP' & Hbit & mkd' & Ht' & Hmk).
    set (gbit := chosen_bit g pos (sim_b1 P pos) (sim_b2 P pos)) in *.
    set (P' := if gbit then ones_at pos P else zeros_at pos P) in *.
    set (g1 := with_ROM (rom_store (ROM g) pos gbit) g) in *.
    set (mk' := new_marker g pos (sim_b1 P pos) (sim_b2 P pos) mk) in *.
    specialize (IH (S pos) fuel P' g1 w1 mk' (c_bool gbit) ids d mkd').
    destruct IH as (w' & gb' & Hrest & Hw'); try assumption; try lia.
    + apply wf_id_rom_store; assumption.
    + subst P'. destruct gbit; apply wf_id_filter; assumption.
    + intros e q He Hq. subst g1. cbn [ROM with_ROM].
      rewrite id_bit_rom_store by (try apply Hwf; lia).
      case_bool_decide as Hqp.
      * subst q. apply Hbit. exact He.
      * apply Hpre; [|lia]. subst P'.
        destruct gbit; apply filter_In_elem in He; tauto.
    + exists w', gb'. split; [|exact Hw'].
      fold (Next_continue fuel g1 w1 (locals_at (S pos) mk' (c_bool gbit))).
      rewrite Hrest, Hmk. reflexivity.
Qed.

Section NextEq.
Context {W : Type} `{Port W}.

Lemma Next_eq g (w : W) :
  Next g w =
    if negb (fst (reset_pulse w) =? 0) || negb (doneFlag g =? 0)
    then Some (0, with_lastDiscrep 0 g, snd (reset_pulse w))
    else Next_finish <$>
           Next_continue 64 g (write_bits 0xF0 (snd (reset_pulse w)))
                         (locals_at 0 0 0).
Proof.
  unfold Next. destruct (reset_pulse w) as [r w1]. cbn [fst snd].
  destruct (_ || _); [reflexivity|].
  rewrite transmit_byte_eq. cbn [mbind option_bind].
  rewrite Next_loop_continue.
  destruct (Next_continue 64 g (write_bits 240 w1) (locals_at 0 0 0))
    as [[[g' w'] l']|]; [|reflexivity].
  cbn [mbind option_bind fmap option_fmap option_map Next_finish].
  destruct (_ || _); reflexivity.
Qed.
End NextEq.

Lemma Next_finish_resolved g (w : SimBus) d mkd gb :
  Next_finish (with_ROM d g, w, locals_at 64 mkd gb)
  = (fst (after_pass g d mkd), snd (after_pass g d mkd), w).
Proof.
  unfold Next_finish, after_pass. cbn [loc_m loc_discrepMarker locals_at ROM with_ROM past_ROM].
  change (Z.of_nat 64 + 1 <? 65) with false. cbn [orb].
  destruct (dallas_crc8 d 8 =? past_ROM g); reflexivity.
Qed.

Lemma Next_sim g w ids p d mkd :
  bus_at w ids p -> ids <> [] -> wf_id (ROM g) -> Forall wf_id ids ->
  doneFlag g = 0 -> pass_target 64 0 ids g d mkd ->
  exists w' p',
    Next g w = Some (fst (after_pass g d mkd), snd (after_pass g d mkd), w')
    /\ bus_at w' ids p'.
Proof.
  intros Hw Hids Hwf Hwfids Hdone Ht.
  destruct (search_command_sim w ids p Hw) as (w1 & w2 & Hr & Htx & Hw2).
  assert (Hr0 : reset_pulse w = (0, w1))
    by (rewrite Hr; destruct ids; [congruence|reflexivity]).
  rewrite transmit_byte_eq in Htx. injection Htx as Htx.
  rewrite Next_eq, Hr0, Hdone. cbn [fst snd].
  change (negb (0 =? 0) || negb (0 =? 0)) with false. cbv iota.
  rewrite Htx.
  destruct (search_pass 64 0 64 ids g w2 0 0 ids d mkd) as (w' & gb' & Hpass & Hw');
    try assumption; try lia.
  assert (Hmk : (if mkd =? 0 then 0 else mkd) = mkd)
    by (destruct (Z.eqb_spec mkd 0); congruence).
  rewrite Hmk in Hpass. rewrite Hpass.
  cbn [fmap option_fmap option_map]. rewrite Next_finish_resolved.
  exists w', Idle. split; [reflexivity|exact Hw'].
Qed.

Lemma Next_done_sim g w ids p :
  bus_at w ids p -> doneFlag g <> 0 ->
  exists w' p', Next g w = Some (0, with_lastDiscrep 0 g, w') /\ bus_at w' ids p'.
Proof.
  intros Hw Hdone.
  destruct (reset_pulse_sim w ids p Hw) as (w1 & Hr & Hw1).
  rewrite Next_eq, Hr. cbn [fst snd].
  replace (doneFlag g =? 0) with false by (symmetry; apply Z.eqb_neq; assumption).
  rewrite orb_true_r. eauto.
Qed.

Lemma fill_row (row rom : list Z) :
  length row = 8%nat -> length rom = 8%nat ->
  foldl (fun r m => set1 r m (get1 rom m)) row (seqZ 0 8) = rom.
Proof.
  intros Hrow Hrom.
  do 9 (destruct rom as [|? rom]; try discriminate Hrom).
  do 9 (destruct row as [|? row]; try discriminate Hrow).
  reflexivity.
Qed.

Lemma store_row_gen i ms : forall g r,
  numROMs g = Z.of_nat i -> (i < 5)%nat -> FoundROM g !! i = Some r ->
  foldl (fun g m => store_FoundROM (numROMs g) m (get1 (ROM g) m) g) g ms
  = with_FoundROM
      (<[i := foldl (fun r m => set1 r m (get1 (ROM g) m)) r ms]> (FoundROM g)) g.
Proof.
  induction ms as [|m ms IH]; intros g r Hnum Hi Hr.
  - cbn [foldl]. rewrite list_insert_id by assumption. destruct g; reflexivity.
  - cbn [foldl].
    assert (Hst : store_FoundROM (numROMs g) m (get1 (ROM g) m) g
                  = with_FoundROM (<[i := set1 r m (get1 (ROM g) m)]> (FoundROM g)) g).
    { unfold store_FoundROM, set2. rewrite Hnum, Nat2Z.id, Hr.
      replace (Z.of_nat i <? 5) with true by (symmetry; apply Z.ltb_lt; lia).
      reflexivity. }
    rewrite Hst.
    rewrite (IH _ (set1 r m (get1 (ROM g) m))).
    + cbn [FoundROM with_FoundROM ROM]. rewrite list_insert_insert_eq.
      destruct g; reflexivity.
    + exact Hnum.
    + exact Hi.
    + cbn [FoundROM with_FoundROM]. apply list_lookup_insert_eq.
      eapply lookup_lt_Some, Hr.
Qed.

(** Copying [ROM] into row [i] of the table. *)
Lemma store_row g i :
  wf_globals g -> numROMs g = Z.of_nat i -> (i < 5)%nat ->
  foldl (fun g m => store_FoundROM (numROMs g) m (get1 (ROM g) m) g) g (seqZ 0 8)
  = with_FoundROM (<[i := ROM g]> (FoundROM g)) g.
Proof.
  intros ((Hlen & _) & HlenF & HF) Hnum Hi.
  destruct (lookup_lt_is_Some_2 (FoundROM g) i) as [row Hrow]; [lia|].
  assert (Hlrow : length row = 8%nat)
    by (apply (Forall_lookup_1 _ _ _ _ HF Hrow)).
  rewrite (store_row_gen i _ g row Hnum Hi Hrow), fill_row by assumption.
  reflexivity.
Qed.

Lemma NoDup_List_filter {A} (f : A -> bool) (l : list A) :
  NoDup l -> NoDup (List.filter f l).
Proof.
  induction 1 as [|x l Hx Hl IH]; cbn; [constructor|].
  destruct (f x); [|exact IH]. constructor; [|exact IH].
  intros Hin. apply Hx. apply filter_In_elem in Hin. tauto.
Qed.

Lemma NoDup_zeros_ones pos P :
  NoDup P -> NoDup (zeros_at pos P) /\ NoDup (ones_at pos P).
Proof. intros HP. split; apply NoDup_List_filter; exact HP. Qed.

Lemma fst_map_marker (p : Z) (E : list (list Z * Z)) :
  (map (fun e => (fst e, if snd e =? 0 then p else snd e)) E).*1 = E.*1.
Proof. induction E as [|e E IH]; cbn; [reflexivity|]. f_equal. exact IH. Qed.

Lemma search_order_perm n : forall P,
  (n <= 64)%nat -> NoDup P -> Forall wf_id P ->
  (forall d e q, d ∈ P -> e ∈ P -> (q < 64 - n)%nat -> id_bit d q = id_bit e q) ->
  (search_order n P).*1 ≡ₚ P.
Proof.
  induction n as [|n IH]; intros P Hn Hnd Hwf Hpre.
  - destruct P as [|d [|e P]]; cbn; try reflexivity.
    exfalso. apply NoDup_cons in Hnd as [Hnotin _]. apply Hnotin.
    assert (d = e) as ->; [|left].
    apply id_ext.
    + eapply Forall_forall in Hwf; [exact Hwf|left].
    + eapply Forall_forall in Hwf; [exact Hwf|right; left].
    + intros q Hq. apply Hpre; [left|right; left|lia].
  - rewrite search_order_S. cbv zeta.
    assert (Hpos : (63 - n < 64)%nat) by lia.
    set (pos := (63 - n)%nat) in *.
    destruct (NoDup_zeros_ones pos P Hnd) as [Hnd0 Hnd1].
    assert (H0 : (search_order n (zeros_at pos P)).*1 ≡ₚ zeros_at pos P).
    { apply IH; [lia|exact Hnd0|apply wf_id_filter, Hwf|].
      intros d e q Hd He Hq. destruct (decide (q = pos)) as [->|Hne].
      - rewrite (zeros_at_bit _ _ _ Hd), (zeros_at_bit _ _ _ He). reflexivity.
      - apply filter_In_elem in Hd as [Hd _]. apply filter_In_elem in He as [He _].
        apply Hpre; auto. lia. }
    assert (H1 : (search_order n (ones_at pos P)).*1 ≡ₚ ones_at pos P).
    { apply IH; [lia|exact Hnd1|apply wf_id_filter, Hwf|].
      intros d e q Hd He Hq. destruct (decide (q = pos)) as [->|Hne].
      - rewrite (ones_at_bit _ _ _ Hd), (ones_at_bit _ _ _ He). reflexivity.
      - apply filter_In_elem in Hd as [Hd _]. apply filter_In_elem in He as [He _].
        apply Hpre; auto. lia. }
    destruct (ones_at pos P) as [|o O1] eqn:E1.
    + rewrite H0. etransitivity; [|apply (zeros_ones_perm pos P)].
      rewrite E1, app_nil_r. reflexivity.
    + rewrite <- E1 in *. rewrite fmap_app, fst_map_marker.
      rewrite H0, H1. apply zeros_ones_perm.
Qed.

Lemma search_order_all ids :
  NoDup ids -> Forall wf_id ids -> (search_order 64 ids).*1 ≡ₚ ids.
Proof. intros Hnd Hwf. apply search_order_perm; auto. intros; lia. Qed.

Lemma FindDevices_loop_eq fuel g (w : SimBus) :
  FindDevices_loop (S fuel) g w =
    Next (stored g) w
    ≫= fun r => if negb (r.1.1 =? 0) && (numROMs r.1.2 <? 5)
                then FindDevices_loop fuel r.1.2 r.2
                else Some (r.1.2, r.2).
Proof.
  cbn [FindDevices_loop]. unfold stored.
  destruct (Next _ w) as [[[nxt g'] w']|]; reflexivity.
Qed.

Lemma stored_inv E i g :
  loop_inv E i g -> (i < 5)%nat ->
  stored g = with_FoundROM (<[i := ROM g]> (FoundROM g))
                           (with_numROMs (Z.of_nat i) g) /\
  wf_globals (stored g) /\
  take (S i) (FoundROM (stored g)) = (take (S i) E).*1.
Proof.
  intros (Hwf & HEi & Hdone & Hnum & Htake) Hi5.
  assert (Hst : stored g = with_FoundROM (<[i := ROM g]> (FoundROM g))
                                         (with_numROMs (Z.of_nat i) g)).
  { unfold stored. rewrite (store_row _ i).
    - replace (numROMs g + 1) with (Z.of_nat i) by lia. reflexivity.
    - exact Hwf.
    - cbn [numROMs with_numROMs]. lia.
    - exact Hi5. }
  split; [exact Hst|]. rewrite Hst. destruct Hwf as (Hrom & HlenF & HF).
  split.
  - split; [exact Hrom|]. cbn [FoundROM with_FoundROM with_numROMs].
    split; [rewrite length_insert; exact HlenF|].
    apply Forall_insert; assumption.
  - cbn [FoundROM with_FoundROM with_numROMs].
    rewrite (take_S_r _ _ (ROM g))
      by (apply list_lookup_insert_eq; lia).
    rewrite take_insert_ge by lia.
    rewrite (take_S_r _ _ _ HEi), fmap_app, Htake. reflexivity.
Qed.

Lemma turn_last ids E i g w p :
  E = search_order 64 ids -> loop_inv E i g -> (S i = length E)%nat ->
  (i < 5)%nat -> bus_at w ids p ->
  exists w' p',
    Next (stored g) w = Some (0, with_lastDiscrep 0 (stored g), w') /\
    bus_at w' ids p'.
Proof.
  intros HE Hinv Hlen Hi5 Hw.
  destruct (stored_inv E i g Hinv Hi5) as (Hst & _).
  destruct Hinv as (Hwf & HEi & Hdone & Hnum & Htake).
  assert (HL0 : lastDiscrep g = 0).
  { pose proof (search_order_last 64 ids i (ROM g) (lastDiscrep g)) as Hlast.
    rewrite <- HE in Hlast. apply (Hlast HEi). exact Hlen. }
  apply (Next_done_sim _ _ _ p); [exact Hw|].
  rewrite Hst. cbn [doneFlag with_FoundROM with_numROMs].
  rewrite Hdone, HL0. discriminate.
Qed.

Lemma loop_inv_after E i g2 d mkd :
  wf_globals g2 -> wf_id d -> E !! i = Some (d, mkd) ->
  numROMs g2 = Z.of_nat i - 1 -> take i (FoundROM g2) = (take i E).*1 ->
  loop_inv E i (with_doneFlag (u8 (c_bool (mkd =? 0)))
                              (with_lastDiscrep mkd (with_ROM d g2))).
Proof.
  intros (_ & HlenF & HF) Hd HEi Hnum Htake.
  split; [|split; [|split; [|split]]].
  - split; [exact Hd|]. split; [exact HlenF|exact HF].
  - exact HEi.
  - apply u8_c_bool.
  - exact Hnum.
  - exact Htake.
Qed.

Lemma turn_more ids E i g w p :
  E = search_order 64 ids -> loop_inv E i g -> (S i < length E)%nat ->
  (i < 5)%nat -> bus_at w ids p ->
  Forall wf_id ids -> (forall d, d ∈ ids -> dallas_crc8 d 8 = past_ROM g) ->
  exists g' w' p',
    Next (stored g) w = Some (1, g', w') /\ bus_at w' ids p' /\
    loop_inv E (S i) g' /\ numROMs g' = Z.of_nat i /\ same_rest g g'.
Proof.
  intros HE Hinv Hlen Hi5 Hw Hwfids Hcrc.
  destruct (stored_inv E i g Hinv Hi5) as (Hst & Hwf2 & Hrow).
  destruct Hinv as (Hwf & HEi & Hdone & Hnum & Htake).
  revert Hst Hwf2 Hrow. generalize (stored g). intros g2 Hst Hwf2 Hrow.
  assert (Hids : ids <> [])
    by (intros ->; rewrite HE, search_order_nil in HEi; discriminate).
  assert (HLnz : lastDiscrep g <> 0).
  { pose proof (search_order_last 64 ids i (ROM g) (lastDiscrep g)) as Hlast.
    rewrite <- HE in Hlast. specialize (Hlast HEi). intros HL0.
    apply Hlast in HL0. lia. }
  destruct (lookup_lt_is_Some_2 E (S i)) as [[d mkd] HESi]; [lia|].
  assert (HLr : lastDiscrep g = 0 \/ 0 < lastDiscrep g <= 64).
  { apply (search_order_marker 64 ids (ROM g)); [lia|].
    rewrite <- HE. eapply list_elem_of_lookup_2, HEi. }
  assert (Hd : d ∈ ids).
  { apply (search_order_In 64 ids d mkd). rewrite <- HE.
    eapply list_elem_of_lookup_2, HESi. }
  destruct (Next_sim g2 w ids p d mkd Hw Hids) as (w' & p' & HNext & Hw').
  - apply Hwf2.
  - exact Hwfids.
  - rewrite Hst. cbn [doneFlag with_FoundROM with_numROMs]. rewrite Hdone.
    replace (lastDiscrep g =? 0) with false by (symmetry; apply Z.eqb_neq; lia).
    reflexivity.
  - right. rewrite Hst. cbn [lastDiscrep ROM with_FoundROM with_numROMs].
    split; [change (Z.of_nat 0) with 0; lia|].
    exists i, (ROM g). rewrite <- HE. auto.
  - assert (Hap : after_pass g2 d mkd
                  = (1, with_doneFlag (u8 (c_bool (mkd =? 0)))
                          (with_lastDiscrep mkd (with_ROM d g2)))).
    { unfold after_pass.
      replace (dallas_crc8 d 8 =? past_ROM g2) with true; [reflexivity|].
      symmetry. apply Z.eqb_eq. rewrite (Hcrc d Hd), Hst. reflexivity. }
    rewrite Hap in HNext. cbn [fst snd] in HNext.
    exists (with_doneFlag (u8 (c_bool (mkd =? 0)))
                          (with_lastDiscrep mkd (with_ROM d g2))), w', p'.
    split; [exact HNext|]. split; [exact Hw'|].
    split; [|split].
    + apply loop_inv_after.
      * exact Hwf2.
      * eapply Forall_forall in Hwfids; [exact Hwfids|exact Hd].
      * exact HESi.
      * rewrite Hst. cbn [numROMs with_FoundROM with_numROMs]. lia.
      * exact Hrow.
    + rewrite Hst. reflexivity.
    + rewrite Hst. repeat split.
Qed.

Lemma FindDevices_loop_sim ids E (k : nat) : forall i fuel g w p,
  E = search_order 64 ids ->
  (i + k + 1 = length E)%nat -> (k < fuel)%nat -> (length E <= 5)%nat ->
  Forall wf_id ids -> (forall d, d ∈ ids -> dallas_crc8 d 8 = past_ROM g) ->
  bus_at w ids p -> loop_inv E i g ->
  exists g' w' p',
    FindDevices_loop fuel g w = Some (g', w') /\ bus_at w' ids p' /\
    numROMs g' = Z.of_nat (length E) - 1 /\
    take (length E) (FoundROM g') = E.*1 /\
    wf_globals g' /\ same_rest g g'.
Proof.
  induction k as [|k IH]; intros i fuel g w p HE Hik Hfuel HE5 Hwfids Hcrc
    Hw Hinv.
  all: destruct fuel as [|fuel]; [lia|].
  all: rewrite FindDevices_loop_eq.
  - destruct (turn_last ids E i g w p HE Hinv ltac:(lia) ltac:(lia) Hw)
      as (w' & p' & HNext & Hw').
    destruct (stored_inv E i g Hinv ltac:(lia)) as (Hst & Hwf2 & Hrow).
    rewrite HNext. clear HNext.
    revert Hst Hwf2 Hrow. generalize (stored g). intros g2 Hst Hwf2 Hrow.
    cbn [mbind option_bind fst snd].
    change (negb (0 =? 0)) with false. cbn [andb].
    exists (with_lastDiscrep 0 g2), w', p'. split; [reflexivity|].
    split; [exact Hw'|].
    split; [|split; [|split]].
    + cbn [numROMs with_lastDiscrep]. rewrite Hst.
      cbn [numROMs with_FoundROM with_numROMs]. lia.
    + cbn [FoundROM with_lastDiscrep].
      replace (length E) with (S i) by lia. rewrite Hrow.
      rewrite take_ge by lia. reflexivity.
    + exact Hwf2.
    + rewrite Hst. repeat split.
  - destruct (turn_more ids E i g w p HE Hinv ltac:(lia) ltac:(lia) Hw Hwfids Hcrc)
      as (g3 & w' & p' & HNext & Hw' & Hinv3 & Hnum3 & Hsame3).
    rewrite HNext. cbn [mbind option_bind fst snd].
    change (negb (1 =? 0)) with true. cbn [andb]. rewrite Hnum3.
    replace (Z.of_nat i <? 5) with true by (symmetry; apply Z.ltb_lt; lia).
    assert (Hcrc3 : forall e, e ∈ ids -> dallas_crc8 e 8 = past_ROM g3)
      by (intros e He; rewrite (Hcrc e He); symmetry; apply Hsame3).
    destruct (IH (S i) fuel g3 w' p' HE ltac:(lia) ltac:(lia) HE5 Hwfids Hcrc3
                 Hw' Hinv3)
      as (g' & w'' & p'' & Hloop & Hw'' & Hnum' & Htake' & Hwf' & Hsame).
    exists g', w'', p''. split; [exact Hloop|]. split; [exact Hw''|].
    split; [exact Hnum'|]. split; [exact Htake'|]. split; [exact Hwf'|].
    destruct Hsame3 as (Ha1 & Ha2 & Ha3 & Ha4).
    destruct Hsame as (Hs1 & Hs2 & Hs3 & Hs4).
    repeat split; congruence.
Qed.

Lemma FindDevices_eq g (w : SimBus) :
  FindDevices g w =
    if (reset_pulse w).1 =? 0 then
      Next (with_doneFlag 0 (with_lastDiscrep 0 (with_numROMs (-1) g)))
           (reset_pulse w).2
      ≫= fun r => if negb (r.1.1 =? 0) then FindDevices_loop 6 r.1.2 r.2
                  else Some (r.1.2, r.2)
    else Some (with_numROMs (-1) g, (reset_pulse w).2).
Proof.
  unfold FindDevices, First. destruct (reset_pulse w) as [r w1]. cbn [fst snd].
  destruct (r =? 0); [|reflexivity].
  destruct (Next _ w1) as [[[nxt g'] w']|]; reflexivity.
Qed.

Lemma FindDevices_sim ids E g w p :
  E = search_order 64 ids ->
  (length E <= 5)%nat -> Forall wf_id ids ->
  (forall d, d ∈ ids -> dallas_crc8 d 8 = past_ROM g) ->
  wf_globals g -> bus_at w ids p ->
  exists g' w' p',
    FindDevices g w = Some (g', w') /\ bus_at w' ids p' /\
    numROMs g' = Z.of_nat (length E) - 1 /\
    take (length E) (FoundROM g') = E.*1 /\
    wf_globals g' /\ same_rest g g'.
Proof.
  intros HE HE5 Hwfids Hcrc Hwf Hw.
  destruct (reset_pulse_sim w ids p Hw) as (w1 & Hr & Hw1).
  rewrite FindDevices_eq, Hr. cbn [fst snd].
  destruct ids as [|id0 ids'] eqn:Eids.
  - (* nobody answers the reset *)
    change (1 =? 0) with false. cbv iota.
    rewrite search_order_nil in HE. subst E.
    exists (with_numROMs (-1) g), w1, (Command 0 0).
    split; [reflexivity|]. split; [exact Hw1|]. split; [reflexivity|].
    split; [reflexivity|]. split; [exact Hwf|]. repeat split.
  - rewrite <- Eids in *. change (0 =? 0) with true. cbv iota.
    assert (Hids : ids <> []) by (rewrite Eids; discriminate).
    clear Eids id0 ids'.
    set (g0 := with_doneFlag 0 (with_lastDiscrep 0 (with_numROMs (-1) g))).
    assert (HEnn : E <> []) by (rewrite HE; apply search_order_nonnil, Hids).
    destruct E as [|[d mkd] E'] eqn:EE; [contradiction|]. rewrite <- EE in *.
    assert (HE0 : E !! 0%nat = Some (d, mkd)) by (rewrite EE; reflexivity).
    clear EE HEnn E'.
    assert (Hd : d ∈ ids).
    { apply (search_order_In 64 ids d mkd). rewrite <- HE.
      eapply list_elem_of_lookup_2, HE0. }
    destruct (Next_sim g0 w1 ids (Command 0 0) d mkd Hw1 Hids)
      as (w2 & p2 & HNext & Hw2).
    + apply Hwf.
    + exact Hwfids.
    + reflexivity.
    + left. split; [reflexivity|]. rewrite <- HE. exact HE0.
    + assert (Hap : after_pass g0 d mkd
                    = (1, with_doneFlag (u8 (c_bool (mkd =? 0)))
                            (with_lastDiscrep mkd (with_ROM d g0)))).
      { unfold after_pass.
        replace (dallas_crc8 d 8 =? past_ROM g0) with true; [reflexivity|].
        symmetry. apply Z.eqb_eq. rewrite (Hcrc d Hd). reflexivity. }
      rewrite Hap in HNext. cbn [fst snd] in HNext. rewrite HNext. clear HNext Hap.
      cbn [mbind option_bind fst snd]. change (negb (1 =? 0)) with true. cbv iota.
      assert (Hinv : loop_inv E 0 (with_doneFlag (u8 (c_bool (mkd =? 0)))
                                     (with_lastDiscrep mkd (with_ROM d g0)))).
      { apply loop_inv_after.
        - exact Hwf.
        - eapply Forall_forall in Hwfids; [exact Hwfids|exact Hd].
        - exact HE0.
        - reflexivity.
        - reflexivity. }
      assert (Hsame0 : same_rest g (with_doneFlag (u8 (c_bool (mkd =? 0)))
                                     (with_lastDiscrep mkd (with_ROM d g0))))
        by (repeat split).
      revert Hinv Hsame0.
      generalize (with_doneFlag (u8 (c_bool (mkd =? 0)))
                                (with_lastDiscrep mkd (with_ROM d g0))).
      intros g3 Hinv (Ha1 & Ha2 & Ha3 & Ha4).
      pose proof (lookup_lt_Some _ _ _ HE0) as Hlen.
      assert (Hcrc3 : forall e, e ∈ ids -> dallas_crc8 e 8 = past_ROM g3)
        by (intros e He; rewrite (Hcrc e He); symmetry; exact Ha1).
      destruct (FindDevices_loop_sim ids E (length E - 1) 0 6 g3 w2 p2 HE
                  ltac:(lia) ltac:(lia) HE5 Hwfids Hcrc3 Hw2 Hinv)
        as (g' & w' & p' & Hloop & Hw' & Hnum' & Htake' & Hwf' & Hs1 & Hs2 & Hs3 & Hs4).
      exists g', w', p'. split; [exact Hloop|]. split; [exact Hw'|].
      split; [exact Hnum'|]. split; [exact Htake'|]. split; [exact Hwf'|].
      repeat split; congruence.
Qed.

(** When the byte that [ROM[8]] reads is a byte of its own that equals the
    CRC over the eight bytes of every identifier on the bus (0 for
    identifiers that carry their own CRC), [FindDevices] finds up to five
    distinct identifiers, all of them, and a second run finds them again. *)
Lemma FindDevices_discovers_all ids g w p :
  (length ids <= 5)%nat -> NoDup ids -> Forall wf_id ids ->
  (forall d, d ∈ ids -> dallas_crc8 d 8 = past_ROM g) ->
  wf_globals g -> bus_at w ids p ->
  exists g1 w1 g2 w2,
    FindDevices g w = Some (g1, w1) /\
    numROMs g1 = Z.of_nat (length ids) - 1 /\
    take (length ids) (FoundROM g1) ≡ₚ ids /\
    FoundROM_overrun g1 = FoundROM_overrun g /\
    FindDevices g1 w1 = Some (g2, w2) /\
    numROMs g2 = numROMs g1 /\
    take (length ids) (FoundROM g2) = take (length ids) (FoundROM g1).
Proof.
  intros Hlen Hnd Hwfids Hcrc Hwf Hw.
  pose proof (search_order_all ids Hnd Hwfids) as Hperm.
  remember (search_order 64 ids) as E eqn:HE.
  assert (HlenE : length E = length ids)
    by (rewrite <- (Permutation_length Hperm), length_fmap; reflexivity).
  destruct (FindDevices_sim ids E g w p HE ltac:(lia) Hwfids Hcrc Hwf Hw)
    as (g1 & w1 & p1 & Hrun1 & Hw1 & Hnum1 & Htake1 & Hwf1 & Hs1 & Hs2 & _).
  assert (Hcrc1 : forall d, d ∈ ids -> dallas_crc8 d 8 = past_ROM g1)
    by (intros d Hd; rewrite (Hcrc d Hd); symmetry; exact Hs1).
  destruct (FindDevices_sim ids E g1 w1 p1 HE ltac:(lia) Hwfids Hcrc1 Hwf1 Hw1)
    as (g2 & w2 & p2 & Hrun2 & Hw2 & Hnum2 & Htake2 & _).
  exists g1, w1, g2, w2. rewrite HlenE in *.
  split; [exact Hrun1|]. split; [exact Hnum1|].
  split; [rewrite Htake1; exact Hperm|]. split; [exact Hs2|].
  split; [exact Hrun2|]. split; [congruence|]. congruence.
Qed.

(** * Exhaustive checks over bytes *)

Lemma forall_bytes (P : Z -> bool) :
  forallb P (seqZ 0 256) = true -> forall a, 0 <= a < 256 -> P a = true.
Proof.
  intros H a Ha. rewrite forallb_forall in H. apply H.
  apply list_elem_of_In, elem_of_seqZ. lia.
Qed.

Lemma forall_bytes2 (P : Z -> Z -> bool) :
  forallb (fun a => forallb (P a) (seqZ 0 256)) (seqZ 0 256) = true ->
  forall a b, 0 <= a < 256 -> 0 <= b < 256 -> P a b = true.
Proof.
  intros H a b Ha Hb.
  apply (forall_bytes (P a)); [|exact Hb].
  apply (forall_bytes (fun a => forallb (P a) (seqZ 0 256))); assumption.
Qed.

Lemma crc8_byte_range c b :
  0 <= c < 256 -> 0 <= b < 256 -> 0 <= crc8_byte c b < 256.
Proof.
  intros Hc Hb.
  pose proof (forall_bytes2
    (fun c b => (0 <=? crc8_byte c b) && (crc8_byte c b <? 256))
    ltac:(vm_compute; reflexivity) c b Hc Hb) as H.
  cbv beta in H. apply andb_true_iff in H as [H1 H2]. lia.
Qed.



(** * Two identifiers that differ in the last bit *)








Section LastBitPair.
Variables (lo hi : list Z) (ids : list (list Z)).
Hypothesis Hwlo : wf_id lo.
Hypothesis Hwhi : wf_id hi.
Hypothesis Hids : ids = [lo; hi] \/ ids = [hi; lo].
Hypothesis Hbits : forall q, (q < 63)%nat -> id_bit lo q = id_bit hi q.
Hypothesis Hlo : id_bit lo 63 = false.
Hypothesis Hhi : id_bit hi 63 = true.





End LastBitPair.




(** C6 (amended): on the simulated bus [reset_pulse] returns 0 if and only
    if at least one device is attached (and so pulls the line low in the
    window where the line is sampled), and returns 1 if and only if there
    is none. *)
Theorem reset_pulse_presence s ids p :
  bus_at s ids p ->
  (fst (reset_pulse s) = 0 <-> ids <> []) /\
  (fst (reset_pulse s) = 1 <-> ids = []).
Proof.
  intros Hs. destruct (reset_pulse_sim s ids p Hs) as (s' & -> & _).
  destruct ids; cbn [fst]; repeat split; try congruence; try discriminate.
Qed.

Lemma reset_pulse_presence_witness :
  (fst (reset_pulse (sim_bus [device_id 0x28 5 1])) = 0
     <-> [device_id 0x28 5 1] <> []) /\
  (fst (reset_pulse (sim_bus [device_id 0x28 5 1])) = 1
     <-> [device_id 0x28 5 1] = []).
Proof.
  apply (reset_pulse_presence (sim_bus [device_id 0x28 5 1]) _ Idle).
  repeat split.
Defined.

(** With a device answering, the result is 0 (false), not true. *)
Lemma reset_pulse_returns_0_on_presence :
  fst (reset_pulse (sim_bus [device_id 0x28 5 1])) = 0 /\
  fst (reset_pulse (sim_bus [])) = 1.
Proof. split; vm_compute; reflexivity. Qed.

(** C7: for the sample MSB = 0xff, LSB = 0xf0 (-1.0 degrees) the degrees C
    branch of [convert_temperature] gives sign '-', whole degrees 0 and
    fraction 0, where two's-complementing the combined value gives whole
    degrees 1; for MSB = 0xff, LSB = 0xf8 both give '-', 0 and the nibble
    8, which the rounding table prints as '5'. *)
Theorem celsius_negative_whole_degree :
  celsius_parts 0xff 0xf0 = (chr "-", 0, 0) /\
  celsius_twos_complement 0xff 0xf0 = (chr "-", 1, 0) /\
  celsius_parts 0xff 0xf8 = (chr "-", 0, 8) /\
  celsius_twos_complement 0xff 0xf8 = (chr "-", 0, 8) /\
  get1 dec_temp 8 = chr "5".
Proof. repeat split; vm_compute; reflexivity. Qed.

Lemma parts_eqb_eq a b : parts_eqb a b = true -> a = b.
Proof.
  destruct a as [[a1 a2] a3], b as [[b1 b2] b3]. unfold parts_eqb. cbn [fst snd].
  rewrite !andb_true_iff, !Z.eqb_eq. intros [[-> ->] ->]. reflexivity.
Qed.




(** C9: when the sample of a slot has the sentinel MSB 0x55,
    [convert_temperature] leaves the string "------" in [OctetArray] for
    either unit, and no sign-extended 12-bit reading has that MSB. *)
Theorem sentinel_dashes emb_itoa device_num g t :
  get2 (DS18B20_scratch g) device_num 1 = 0x55 ->
  -2048 <= t < 2048 ->
  (forall degCorF,
     c_string (OctetArray (convert_temperature emb_itoa device_num degCorF g))
     = map chr ["-"; "-"; "-"; "-"; "-"; "-"]%char) /\
  reading_msb t <> 0x55.
Proof.
  intros Hs Ht. split.
  - intros degCorF. unfold convert_temperature. rewrite Hs.
    change (negb (85 =? 85)) with false. cbv iota.
    cbn [OctetArray with_OctetArray]. reflexivity.
  - unfold reading_msb. intros E.
    destruct (Z_lt_le_dec t 0) as [Hneg|Hpos].
    + assert (Hm : t mod 65536 = t + 65536).
      { symmetry. apply (Z.mod_unique_pos _ _ (-1)); lia. }
      rewrite Hm in E.
      pose proof (Z.mul_succ_div_gt (t + 65536) 256 ltac:(lia)). lia.
    + rewrite Z.mod_small in E by lia.
      pose proof (Z.div_lt_upper_bound t 256 8 ltac:(lia) ltac:(lia)). lia.
Qed.

Lemma sentinel_dashes_witness :
  (forall degCorF,
     c_string (OctetArray (convert_temperature itoa_digits 3 degCorF
                             (with_scratch (replicate 5 [0; 0x55]) (globals_init 0))))
     = map chr ["-"; "-"; "-"; "-"; "-"; "-"]%char) /\
  reading_msb (-8) <> 0x55.
Proof.
  apply sentinel_dashes; [reflexivity|lia].
Defined.

(** C2 (amended): when both bits read in a turn of the loop of [Next] are
    0, the turn does not break and: at a bit index m below [lastDiscrep]
    it replays the bit stored in [ROM] at that position (and records m as
    marker when that bit is 0); at m equal to [lastDiscrep] it chooses 1
    and leaves the marker as it was; at m above [lastDiscrep] it chooses 0
    and records m as the new marker.  The chosen bit is stored in [ROM]
    and written to the bus. *)
Theorem Next_discrepancy_choice {W} `{Port W} g (w w1 w2 : W) l :
  read_bit w = (0, w1) -> read_bit w1 = (0, w2) ->
  exists g' l',
    Next_body g w l = (g', write_bit (loc_g l') w2, l', false) /\
    (loc_m l < lastDiscrep g ->
       loc_g l' = c_bool (0 <? Z.land (get1 (ROM g) (loc_n l)) (loc_k l)) /\
       loc_discrepMarker l'
       = if loc_g l' =? 0 then loc_m l else loc_discrepMarker l) /\
    (loc_m l = lastDiscrep g ->
       loc_g l' = 1 /\ loc_discrepMarker l' = loc_discrepMarker l) /\
    (lastDiscrep g < loc_m l ->
       loc_g l' = 0 /\ loc_discrepMarker l' = loc_m l) /\
    ROM g' = set1 (ROM g) (loc_n l)
               (if loc_g l' =? 1 then Z.lor (get1 (ROM g) (loc_n l)) (loc_k l)
                else Z.land (get1 (ROM g) (loc_n l)) (u8 (Z.lnot (loc_k l)))).
Proof.
  intros Hr1 Hr2. unfold Next_body. rewrite Hr1, Hr2.
  change (0 =? 1) with false. cbv iota.
  change (0 =? 3) with false. change (0 <? 0) with false. cbv iota.
  rewrite !u8_c_bool.
  destruct (Z.ltb_spec (loc_m l) (lastDiscrep g)) as [Hlt|Hge].
  - destruct (0 <? Z.land (get1 (ROM g) (loc_n l)) (loc_k l)); cbn [c_bool].
    + change (1 =? 0) with false. change (1 =? 1) with true. cbv iota.
      destruct (u8 (Z.shiftl (loc_k l) 1) =? 0);
        eexists _, (mkLocals _ _ _ _ _); (split; [reflexivity|]); cbn [loc_g loc_discrepMarker ROM with_ROM];
        repeat split; try reflexivity; intros; lia.
    + change (0 =? 0) with true. change (0 =? 1) with false. cbv iota.
      destruct (u8 (Z.shiftl (loc_k l) 1) =? 0);
        eexists _, (mkLocals _ _ _ _ _); (split; [reflexivity|]); cbn [loc_g loc_discrepMarker ROM with_ROM];
        repeat split; try reflexivity; intros; lia.
  - destruct (Z.eqb_spec (loc_m l) (lastDiscrep g)) as [Heq|Hne]; cbn [c_bool].
    + change (1 =? 0) with false. change (1 =? 1) with true. cbv iota.
      destruct (u8 (Z.shiftl (loc_k l) 1) =? 0);
        eexists _, (mkLocals _ _ _ _ _); (split; [reflexivity|]); cbn [loc_g loc_discrepMarker ROM with_ROM];
        repeat split; try reflexivity; intros; lia.
    + change (0 =? 0) with true. change (0 =? 1) with false. cbv iota.
      destruct (u8 (Z.shiftl (loc_k l) 1) =? 0);
        eexists _, (mkLocals _ _ _ _ _); (split; [reflexivity|]); cbn [loc_g loc_discrepMarker ROM with_ROM];
        repeat split; try reflexivity; intros; lia.
Qed.

Lemma Next_discrepancy_choice_witness :
  exists g' l',
    Next_body (globals_init 0) ([0; 0; 0x40] : Script) (mkLocals 1 0 1 0 0)
    = (g', write_bit (loc_g l') ([0x40] : Script), l', false) /\
    loc_g l' = 0 /\ loc_discrepMarker l' = 1.
Proof.
  destruct (Next_discrepancy_choice (W := Script) (H := ScriptPort) (globals_init 0) [0; 0; 0x40]
              [0; 0x40] [0x40] (mkLocals 1 0 1 0 0)
              ltac:(reflexivity) ltac:(reflexivity))
    as (g' & l' & Hb & _ & _ & Hgt & _).
  exists g', l'. split; [exact Hb|]. apply Hgt. cbn. lia.
Defined.

(** The 0 branch is taken at a discrepancy behind [lastDiscrep]. *)
Lemma Next_picks_0_after_lastDiscrep :
  let '(_, _, l', brk) :=
    Next_body (globals_init 0) ([0; 0] : Script) (mkLocals 1 0 1 0 0) in
  lastDiscrep (globals_init 0) <= 1 /\ brk = false /\
  loc_g l' = 0 /\ loc_discrepMarker l' = 1.
Proof. vm_compute. repeat split; discriminate. Qed.

Section Sampling.
Context {W : Type} `{Port W}.

Lemma same_search_refl g : same_search g g.
Proof. repeat split. Qed.

Lemma same_search_trans g1 g2 g3 :
  same_search g1 g2 -> same_search g2 g3 -> same_search g1 g3.
Proof. unfold same_search. intuition congruence. Qed.

Lemma set2_other a r c v i :
  i <> Z.to_nat r -> set2 a r c v !! i = a !! i.
Proof. intros Hi. unfold set2. apply list_lookup_insert_ne. congruence. Qed.

Lemma read_scratch_loop_spec fuel : forall dn i j g (w : W),
  (forall g' w', read_scratch_loop fuel dn i j g w = Some (g', w') ->
     same_search g g' /\
     forall r, r <> Z.to_nat dn ->
               DS18B20_scratch g' !! r = DS18B20_scratch g !! r).
Proof.
  induction fuel as [|fuel IH]; intros dn i j g w g' w' Hrun; [discriminate|].
  cbn [read_scratch_loop] in Hrun. destruct (read_bit w) as [b wb].
  destruct (b =? 1).
  - destruct (j =? 128).
    + injection Hrun as <- <-. split; [repeat split|].
      intros r Hr. apply set2_other, Hr.
    + apply IH in Hrun as [Hs Hrows]. split.
      * eapply same_search_trans; [|exact Hs]. repeat split.
      * intros r Hr. rewrite (Hrows r Hr). apply set2_other, Hr.
  - destruct (j =? 128).
    + injection Hrun as <- <-. split; [repeat split|].
      intros r Hr. apply set2_other, Hr.
    + apply IH in Hrun as [Hs Hrows]. split.
      * eapply same_search_trans; [|exact Hs]. repeat split.
      * intros r Hr. rewrite (Hrows r Hr). apply set2_other, Hr.
Qed.

Lemma mask_shift k :
  (k < 7)%nat ->
  (2 ^ Z.of_nat k =? 128) = false /\
  u8 (Z.shiftl (2 ^ Z.of_nat k) 1) = 2 ^ Z.of_nat (S k).
Proof.
  intros Hk. do 7 (destruct k as [|k]; [split; reflexivity|]). lia.
Qed.

Lemma read_scratch_loop_total_from n : forall k fuel dn i g (w : W),
  (k + n = 7)%nat -> (n < fuel)%nat ->
  is_Some (read_scratch_loop fuel dn i (2 ^ Z.of_nat k) g w).
Proof.
  induction n as [|n IH]; intros k fuel dn i g w Hk Hfuel;
    (destruct fuel as [|fuel]; [lia|]); cbn [read_scratch_loop];
    destruct (read_bit w) as [b wb].
  - replace k with 7%nat by lia. change (2 ^ Z.of_nat 7 =? 128) with true.
    destruct (b =? 1); eauto.
  - destruct (mask_shift k ltac:(lia)) as [-> ->].
    destruct (b =? 1); apply IH; lia.
Qed.

(** A byte is clocked in with eight read slots. *)
Lemma read_scratch_loop_total dn i g (w : W) :
  is_Some (read_scratch_loop 8 dn i 0x01 g w).
Proof. apply (read_scratch_loop_total_from 7 0); lia. Qed.

Lemma bind_Some {A B} (f : A -> option B) (x : A) : Some x ≫= f = f x.
Proof. reflexivity. Qed.

Lemma bind_None {A B} (f : A -> option B) : None ≫= f = None.
Proof. reflexivity. Qed.

Lemma foldl_2 {A B} (f : A -> B -> A) a x y : foldl f a [x; y] = f (f a x) y.
Proof. reflexivity. Qed.

Lemma transmit_FoundROM_eq g dn (w : W) :
  transmit_FoundROM g dn w
  = Some (foldl (fun w i => write_bits (get2 (FoundROM g) dn i) w) w (seqZ 0 8)).
Proof.
  unfold transmit_FoundROM.
  change (seqZ 0 8) with [0;1;2;3;4;5;6;7].
  cbn [foldl].
  repeat (rewrite bind_Some; rewrite transmit_byte_eq).
  reflexivity.
Qed.

Lemma get_temperature_body_eq dn g (w : W) :
  get_temperature_body dn g w =
    if negb (fst (reset_pulse w) =? 0)
    then Some (false, g, snd (reset_pulse w))
    else if dn <=? numROMs g then
      match read_sample dn g
              (write_bits 0xbe (match_rom g dn (snd (reset_pulse w)))) with
      | Some (g', w') =>
          Some (true, g',
                write_bits 0x44 (match_rom g' dn (snd (reset_pulse w'))))
      | None => None
      end
    else Some (true, g, snd (reset_pulse w)).
Proof.
  unfold get_temperature_body, read_sample, match_rom.
  destruct (reset_pulse w) as [r w1]. cbn [fst snd].
  destruct (negb (r =? 0)); [reflexivity|].
  destruct (dn <=? numROMs g); [|reflexivity].
  rewrite transmit_byte_eq, bind_Some, transmit_FoundROM_eq, bind_Some.
  rewrite transmit_byte_eq, bind_Some.
  change (seqZ 0 2) with [0; 1]. rewrite foldl_2, bind_Some.
  destruct (read_scratch_loop 8 dn 0 1 g _) as [[g3 w3]|];
    [|rewrite !bind_None; reflexivity].
  rewrite bind_Some.
  destruct (read_scratch_loop 8 dn 1 1 g3 w3) as [[g4 w4]|];
    [|rewrite !bind_None; reflexivity].
  rewrite bind_Some.
  destruct (reset_pulse w4) as [r5 w5]. cbn [fst snd].
  rewrite transmit_byte_eq, bind_Some, transmit_FoundROM_eq, bind_Some.
  rewrite transmit_byte_eq, bind_Some.
  reflexivity.
Qed.

Lemma read_sample_total dn g (w : W) : is_Some (read_sample dn g w).
Proof.
  unfold read_sample.
  destruct (read_scratch_loop_total dn 0 g w) as [[g3 w3] ->].
  apply read_scratch_loop_total.
Qed.

Lemma read_sample_spec dn g (w : W) g' w' :
  read_sample dn g w = Some (g', w') ->
  same_search g g' /\
  forall r, r <> Z.to_nat dn ->
            DS18B20_scratch g' !! r = DS18B20_scratch g !! r.
Proof.
  unfold read_sample.
  destruct (read_scratch_loop 8 dn 0 1 g w) as [[g3 w3]|] eqn:E3; [|discriminate].
  intros E4.
  apply read_scratch_loop_spec in E3 as [Hs3 Hr3].
  apply read_scratch_loop_spec in E4 as [Hs4 Hr4].
  split; [eapply same_search_trans; eassumption|].
  intros q Hq. rewrite (Hr4 q Hq). apply Hr3, Hq.
Qed.

Lemma get_temperature_body_total dn g (w : W) :
  is_Some (get_temperature_body dn g w).
Proof.
  rewrite get_temperature_body_eq.
  destruct (negb _); [eauto|]. destruct (dn <=? numROMs g); [|eauto].
  destruct (read_sample_total dn g
              (write_bits 190 (match_rom g dn (reset_pulse w).2)))
    as [[g' w'] ->].
  eauto.
Qed.

Lemma get_temperature_body_spec dn g (w : W) go g' w' :
  get_temperature_body dn g w = Some (go, g', w') ->
  same_search g g' /\
  (forall r, r <> Z.to_nat dn ->
             DS18B20_scratch g' !! r = DS18B20_scratch g !! r) /\
  (go = false <-> fst (reset_pulse w) <> 0) /\
  (go = false -> g' = g /\ w' = snd (reset_pulse w)).
Proof.
  rewrite get_temperature_body_eq.
  destruct (Z.eqb_spec (fst (reset_pulse w)) 0) as [Hr|Hr]; cbn [negb].
  2:{ intros [= <- <- <-]. split; [apply same_search_refl|].
      split; [reflexivity|]. split; [tauto|]. auto. }
  assert (Hgo : forall b : bool, b = true ->
                  (b = false <-> fst (reset_pulse w) <> 0)
                  /\ (b = false -> g' = g /\ w' = snd (reset_pulse w)))
    by (intros b ->; split; [split; [discriminate|congruence]|discriminate]).
  destruct (dn <=? numROMs g).
  2:{ intros [= <- <- <-]. split; [apply same_search_refl|].
      split; [reflexivity|]. apply Hgo. reflexivity. }
  destruct (read_sample dn g _) as [[g3 w3]|] eqn:E3; [|discriminate].
  intros [= <- <- <-].
  apply read_sample_spec in E3 as [Hs3 Hr3].
  split; [exact Hs3|]. split; [exact Hr3|]. apply Hgo. reflexivity.
Qed.

Lemma sampled_before_S d g (w : W) g1 w1 :
  sampled_before (S d) g w = Some (g1, w1) ->
  exists g0 w0, sampled_before d g w = Some (g0, w0) /\
                get_temperature_body (Z.of_nat d) g0 w0 = Some (true, g1, w1).
Proof.
  cbn [sampled_before].
  destruct (sampled_before d g w) as [[g0 w0]|]; [|discriminate].
  cbn [mbind option_bind].
  destruct (get_temperature_body (Z.of_nat d) g0 w0) as [[[go g2] w2]|] eqn:Eb;
    [|discriminate].
  cbn [mbind option_bind]. destruct go; [|discriminate].
  intros [= <- <-]. exists g0, w0. split; [reflexivity|exact Eb].
Qed.

(** The turns before [d] went through: the pass is at the turn for [d]. *)
Lemma get_temperature_from d : forall g (w : W) g1 w1,
  (d <= 5)%nat -> sampled_before d g w = Some (g1, w1) ->
  get_temperature g w = get_temperature_loop (5 - d) (Z.of_nat d) g1 w1.
Proof.
  induction d as [|d IH]; intros g w g1 w1 Hd Hrun.
  - injection Hrun as <- <-. reflexivity.
  - apply sampled_before_S in Hrun as (g0 & w0 & Hrun & Hbody).
    rewrite (IH g w g0 w0 ltac:(lia) Hrun).
    replace (5 - d)%nat with (S (5 - S d)) by lia.
    cbn [get_temperature_loop].
    replace (Z.of_nat d <? 5) with true by (symmetry; apply Z.ltb_lt; lia).
    rewrite Hbody. cbn [mbind option_bind].
    replace (u8 (Z.of_nat d + 1)) with (Z.of_nat (S d)); [reflexivity|].
    unfold u8. rewrite Z.mod_small; lia.
Qed.

Lemma sampled_before_rows d : forall g (w : W) g1 w1,
  sampled_before d g w = Some (g1, w1) ->
  same_search g g1 /\
  forall i, (d <= i)%nat -> DS18B20_scratch g1 !! i = DS18B20_scratch g !! i.
Proof.
  induction d as [|d IH]; intros g w g1 w1 Hrun.
  - injection Hrun as <- <-. split; [apply same_search_refl|reflexivity].
  - apply sampled_before_S in Hrun as (g0 & w0 & Hrun & Hbody).
    destruct (IH g w g0 w0 Hrun) as [Hs Hrows].
    apply get_temperature_body_spec in Hbody as (Hs' & Hrows' & _).
    split; [eapply same_search_trans; eassumption|].
    intros i Hi. rewrite Hrows' by (rewrite Nat2Z.id; lia). apply Hrows. lia.
Qed.
End Sampling.

(** C5 (amended): if the turns for the devices before d went through and
    the reset at the head of the turn for device d reports no presence,
    [get_temperature] returns at once, and the samples of the slots d and
    above are as they were before the pass (the slots below d have been
    read already). *)
Theorem get_temperature_abort {W} `{Port W} (d : nat) g (w : W) g1 w1 :
  (d < 5)%nat -> sampled_before d g w = Some (g1, w1) ->
  fst (reset_pulse w1) <> 0 ->
  get_temperature g w = Some (g1, snd (reset_pulse w1)) /\
  forall i, (d <= i)%nat -> DS18B20_scratch g1 !! i = DS18B20_scratch g !! i.
Proof.
  intros Hd Hrun Hr. split.
  - rewrite (get_temperature_from d g w g1 w1 ltac:(lia) Hrun).
    replace (5 - d)%nat with (S (4 - d)) by lia. cbn [get_temperature_loop].
    replace (Z.of_nat d <? 5) with true by (symmetry; apply Z.ltb_lt; lia).
    destruct (get_temperature_body_total (Z.of_nat d) g1 w1) as [[[go g2] w2] Hb].
    rewrite Hb. cbn [mbind option_bind].
    apply get_temperature_body_spec in Hb as (_ & _ & Hgo & Hret).
    destruct go; [discriminate (proj2 Hgo Hr)|].
    destruct (Hret eq_refl) as [-> ->]. reflexivity.
  - apply (sampled_before_rows d g w g1 w1 Hrun).
Qed.

Lemma wf_id_bytes (a b c d e f g h : Z) :
  forallb (fun x => (0 <=? x) && (x <? 256)) [a; b; c; d; e; f; g; h] = true ->
  wf_id [a; b; c; d; e; f; g; h].
Proof.
  intros Hall. split; [reflexivity|]. apply Forall_forall. intros x Hx.
  rewrite forallb_forall in Hall. apply list_elem_of_In, Hall in Hx. lia.
Qed.

Lemma wf_globals_init v : wf_globals (globals_init v).
Proof.
  split; [apply wf_id_bytes; reflexivity|]. split; [reflexivity|].
  repeat (apply Forall_cons_2; [apply wf_id_bytes; reflexivity|]).
  apply Forall_nil_2.
Qed.

Lemma bus_at_sim_bus ids : bus_at (sim_bus ids) ids Idle.
Proof. repeat split. Qed.

(** C1: three distinct identifiers, each carrying the CRC of its first seven
    bytes, are on the simulated bus.  When [ROM[8]] reads [lastDiscrep], the
    variable declared behind [ROM], [FindDevices] ends with [numROMs = 0]
    and one row of the table filled: the second pass resolves a valid
    identifier, whose CRC over eight bytes is 0, and compares it with
    [lastDiscrep], which the first pass left at a discrepancy position.
    When that byte is a byte of its own holding 0, the same bus gives
    [numROMs = 2] and the three identifiers. *)
Theorem FindDevices_finds_one_of_three :
  NoDup three_ids /\
  forallb (fun d => dallas_crc8 (take 7 d) 7 =? get1 d 7) three_ids = true /\
  option_map (fun r => (numROMs r.1, FoundROM r.1))
    (FindDevices_at lastDiscrep (globals_init 0) (sim_bus three_ids))
  = Some (0, <[0%nat := device_id 0x28 4 0xff]> (replicate 5 (replicate 8 0))) /\
  option_map (fun r => (numROMs r.1, take 3 (FoundROM r.1)))
    (FindDevices (globals_init 0) (sim_bus three_ids))
  = Some (2, [device_id 0x28 4 0xff; device_id 0x28 5 1; device_id 0x28 3 7]).
Proof.
  split; [apply (bool_decide_unpack (NoDup three_ids)); vm_compute; reflexivity|].
  repeat split; vm_compute; reflexivity.
Qed.

(** C3: a device whose eighth identifier byte is the CRC of the other
    seven is the only one on the simulated bus; [ROM] has eight bytes.
    With 0x28 in the byte behind [ROM], [First] resolves all 64 bits and
    returns 0 with [lastDiscrep = 0]; with 0 there it returns 1. *)
Theorem Next_compares_byte_behind_ROM :
  let d := device_id 0x28 5 1 in
  dallas_crc8 (take 7 d) 7 = get1 d 7 /\ length (ROM (globals_init 0x28)) = 8%nat /\
  option_map (fun r => (r.1.1, ROM r.1.2, lastDiscrep r.1.2))
    (First (globals_init 0x28) (sim_bus [d])) = Some (0, d, 0) /\
  option_map (fun r => (r.1.1, ROM r.1.2, lastDiscrep r.1.2))
    (First (globals_init 0) (sim_bus [d])) = Some (1, d, 0).
Proof. repeat split; vm_compute; reflexivity. Qed.

(** C4: with six distinct devices on the simulated bus [FindDevices] ends
    with [numROMs = 5] after storing the eight bytes of the sixth
    identifier found at [FoundROM[5][0..7]], behind the five rows of the
    table. *)
Theorem FindDevices_writes_sixth_row :
  NoDup six_ids /\ length six_ids = 6%nat /\
  option_map (fun r => (numROMs r.1, FoundROM_overrun r.1))
    (FindDevices (globals_init 0) (sim_bus six_ids))
  = Some (5, [(5, 0, 40); (5, 1, 3); (5, 2, 0); (5, 3, 0);
              (5, 4, 0); (5, 5, 0); (5, 6, 0); (5, 7, 71)]).
Proof.
  split; [apply (bool_decide_unpack (NoDup six_ids)); vm_compute; reflexivity|].
  split; vm_compute; reflexivity.
Qed.

Lemma get_temperature_abort_witness :
  exists g1 w1,
    sampled_before 1 (globals_init 0) (sample_script [0; 0x40]) = Some (g1, w1) /\
    get_temperature (globals_init 0) (sample_script [0; 0x40])
    = Some (g1, snd (reset_pulse w1)) /\
    forall i, (1 <= i)%nat ->
      DS18B20_scratch g1 !! i = DS18B20_scratch (globals_init 0) !! i.
Proof.
  eexists _, _. split; [vm_compute; reflexivity|].
  apply (get_temperature_abort (W := Script) (H := ScriptPort) 1).
  - lia.
  - vm_compute. reflexivity.
  - vm_compute. discriminate.
Defined.

(** A sample read before the failing reset stays changed, and the reset
    that ends a turn is not looked at. *)
Lemma get_temperature_keeps_earlier_samples :
  option_map (fun r => (DS18B20_scratch r.1 !! 0%nat, r.2))
    (get_temperature (globals_init 0) (sample_script [0; 0x40]))
  = Some (Some [255; 255], []) /\
  DS18B20_scratch (globals_init 0) !! 0%nat = Some [0; 0] /\
  option_map (fun r => (DS18B20_scratch r.1 !! 0%nat, r.2))
    (get_temperature (globals_init 0) (sample_script [0x40; 0; 0; 0; 0; 7]))
  = Some (Some [255; 255], [7]).
Proof. repeat split; vm_compute; reflexivity. Qed.



(** * The CRC over a buffer *)

Lemma seqZ_0_S (n : nat) : seqZ 0 (Z.of_nat (S n)) = seqZ 0 (Z.of_nat n) ++ [Z.of_nat n].
Proof.
  replace (Z.of_nat (S n)) with (Z.of_nat n + 1) by lia.
  rewrite seqZ_app by lia. rewrite Z.add_0_l. reflexivity.
Qed.

(** Over the first [n] bytes of a buffer the CRC is a fold over them. *)
Lemma u8_small z : 0 <= z < 256 -> u8 z = z.
Proof. intros Hz. unfold u8. apply Z.mod_small. exact Hz. Qed.

Lemma dallas_crc8_fold (n : nat) : forall data,
  (n <= length data)%nat -> (n < 256)%nat ->
  dallas_crc8 data (Z.of_nat n) = foldl crc8_byte 0 (take n data).
Proof.
  unfold dallas_crc8. induction n as [|n IH]; intros data Hn Hsz.
  - reflexivity.
  - destruct (lookup_lt_is_Some_2 data n ltac:(lia)) as [b Hb].
    specialize (IH data ltac:(lia) ltac:(lia)).
    rewrite u8_small in IH |- * by lia.
    rewrite seqZ_0_S, foldl_app, (take_S_r _ _ _ Hb), foldl_app, IH.
    cbn [foldl]. unfold get1. rewrite Nat2Z.id, Hb. reflexivity.
Qed.

Lemma fold_crc_range data : forall c,
  0 <= c < 256 -> Forall (fun b => 0 <= b < 256) data ->
  0 <= foldl crc8_byte c data < 256.
Proof.
  induction data as [|b data IH]; intros c Hc Hdata; [exact Hc|].
  inversion Hdata; subst. cbn [foldl]. apply IH; [|assumption].
  apply crc8_byte_range; assumption.
Qed.

Lemma crc8_byte_self c : 0 <= c < 256 -> crc8_byte c c = 0.
Proof.
  intros Hc. apply Z.eqb_eq.
  exact (forall_bytes (fun c => crc8_byte c c =? 0) ltac:(vm_compute; reflexivity)
                      c Hc).
Qed.

(** Two different bytes lead one CRC value to different values. *)
Lemma crc8_byte_inj_data c a b :
  0 <= c < 256 -> 0 <= a < 256 -> 0 <= b < 256 ->
  crc8_byte c a = crc8_byte c b -> a = b.
Proof.
  intros Hc Ha Hb E.
  assert (Hx : forall c x, 0 <= c < 256 -> 0 <= x < 256 ->
               crc8_byte c x = crc8_byte 0 (Z.lxor c x) /\ 0 <= Z.lxor c x < 256).
  { intros c' x Hc' Hx.
    pose proof (forall_bytes2
      (fun c x => (crc8_byte c x =? crc8_byte 0 (Z.lxor c x))
                  && (0 <=? Z.lxor c x) && (Z.lxor c x <? 256))
      ltac:(vm_compute; reflexivity) c' x Hc' Hx) as H.
    cbv beta in H. rewrite !andb_true_iff in H. lia. }
  destruct (Hx c a Hc Ha) as [Ea Ra]. destruct (Hx c b Hc Hb) as [Eb Rb].
  rewrite Ea, Eb in E.
  pose proof (forall_bytes2
    (fun x y => negb (crc8_byte 0 x =? crc8_byte 0 y) || (x =? y))
    ltac:(vm_compute; reflexivity) _ _ Ra Rb) as H.
  cbv beta in H. rewrite E, Z.eqb_refl in H. cbn [negb orb] in H.
  apply Z.eqb_eq in H.
  rewrite <- (Z.lxor_0_l a), <- (Z.lxor_nilpotent c), Z.lxor_assoc, H,
    <- Z.lxor_assoc, Z.lxor_nilpotent, Z.lxor_0_l. reflexivity.
Qed.

(** Two different CRC values stay different after the same byte. *)
Lemma crc8_byte_inj_crc c d b :
  0 <= c < 256 -> 0 <= d < 256 -> 0 <= b < 256 ->
  crc8_byte c b = crc8_byte d b -> c = d.
Proof.
  intros Hc Hd Hb E.
  pose proof (forall_bytes2
    (fun c x => crc8_byte c x =? crc8_byte x c)
    ltac:(vm_compute; reflexivity)) as Hsym.
  pose proof (Hsym c b Hc Hb) as H1. pose proof (Hsym d b Hd Hb) as H2.
  cbv beta in H1, H2. apply Z.eqb_eq in H1, H2.
  rewrite H1, H2 in E. apply (crc8_byte_inj_data b); assumption.
Qed.

Lemma fold_crc_inj data : forall c d,
  0 <= c < 256 -> 0 <= d < 256 -> Forall (fun b => 0 <= b < 256) data ->
  foldl crc8_byte c data = foldl crc8_byte d data -> c = d.
Proof.
  induction data as [|b data IH]; intros c d Hc Hd Hdata E; [exact E|].
  inversion Hdata; subst. cbn [foldl] in E.
  apply IH in E; try assumption; try (apply crc8_byte_range; assumption).
  apply (crc8_byte_inj_crc c d b); assumption.
Qed.

(** X1: the CRC of a buffer of bytes followed by its own CRC is 0. *)
Theorem dallas_crc8_appended data :
  Forall (fun b => 0 <= b < 256) data -> (length data < 255)%nat ->
  dallas_crc8 (data ++ [dallas_crc8 data (Z.of_nat (length data))])
              (Z.of_nat (length data) + 1) = 0.
Proof.
  intros Hdata Hlen.
  replace (Z.of_nat (length data) + 1) with (Z.of_nat (S (length data))) by lia.
  rewrite !dallas_crc8_fold by (rewrite ?length_app; cbn; lia).
  rewrite firstn_all.
  replace (S (length data)) with (length (data ++ [foldl crc8_byte 0 data]))
    by (rewrite length_app; cbn; lia).
  rewrite firstn_all, foldl_app. cbn [foldl].
  apply crc8_byte_self, fold_crc_range; [lia|assumption].
Qed.

Lemma dallas_crc8_appended_witness :
  dallas_crc8 ([0x28; 5; 1; 0; 0; 0; 0]
               ++ [dallas_crc8 [0x28; 5; 1; 0; 0; 0; 0]
                               (Z.of_nat (length [0x28; 5; 1; 0; 0; 0; 0]))])
              (Z.of_nat (length [0x28; 5; 1; 0; 0; 0; 0]) + 1) = 0.
Proof.
  apply dallas_crc8_appended.
  - repeat (apply Forall_cons_2; [lia|]). apply Forall_nil_2.
  - cbn. lia.
Defined.

(** X2: for a buffer of at most 255 bytes, the sizes a [uint8_t] can pass,
    replacing one byte by a different byte changes the CRC over the
    buffer. *)
Theorem dallas_crc8_detects_byte_error data (i : nat) v b :
  Forall (fun b => 0 <= b < 256) data -> (length data < 256)%nat ->
  data !! i = Some b -> 0 <= v < 256 -> v <> b ->
  dallas_crc8 (<[i := v]> data) (Z.of_nat (length data))
  <> dallas_crc8 data (Z.of_nat (length data)).
Proof.
  intros Hdata Hsz Hi Hv Hne.
  assert (Hlen : (i < length data)%nat) by (eapply lookup_lt_Some, Hi).
  rewrite !dallas_crc8_fold by (rewrite ?length_insert; lia).
  rewrite <- (length_insert data i v) at 1. rewrite !firstn_all.
  rewrite (insert_take_drop data i v Hlen).
  rewrite <- (take_drop_middle data i b Hi) at 3.
  rewrite <- (take_drop_middle data i b Hi) in Hdata.
  apply Forall_app in Hdata as [H1 H2]. inversion H2; subst.
  rewrite !foldl_app. cbn [foldl].
  pose proof (fold_crc_range (take i data) 0 ltac:(lia) H1) as Hc.
  intros E. apply fold_crc_inj in E;
    try assumption; try (apply crc8_byte_range; assumption).
  apply crc8_byte_inj_data in E; try assumption. contradiction.
Qed.

Lemma dallas_crc8_detects_byte_error_witness :
  dallas_crc8 (<[2%nat := 0x81]> [0x28; 5; 1; 0; 0; 0; 0; 0x38])
              (Z.of_nat (length [0x28; 5; 1; 0; 0; 0; 0; 0x38]))
  <> dallas_crc8 [0x28; 5; 1; 0; 0; 0; 0; 0x38]
                 (Z.of_nat (length [0x28; 5; 1; 0; 0; 0; 0; 0x38])).
Proof.
  apply (dallas_crc8_detects_byte_error _ 2 0x81 1).
  - repeat (apply Forall_cons_2; [lia|]). apply Forall_nil_2.
  - cbn. lia.
  - reflexivity.
  - lia.
  - lia.
Defined.

(** * The search for every behaviour of the bus *)

Section SearchAnyBus.
Context {W : Type} `{Port W}.

Lemma search_frame_refl g : search_frame g g.
Proof. repeat split. Qed.

Lemma search_frame_trans g1 g2 g3 :
  search_frame g1 g2 -> search_frame g2 g3 -> search_frame g1 g3.
Proof. unfold search_frame. intuition congruence. Qed.

Lemma search_frame_ROM g rom :
  length rom = length (ROM g) -> search_frame g (with_ROM rom g).
Proof. intros Hl. repeat split. exact Hl. Qed.

(** A turn either breaks and changes only the world, or stores a bit and
    moves on; the marker stays or becomes the index of the turn. *)
Lemma Next_body_frame g (w : W) pos mk gb :
  (pos < 64)%nat ->
  exists g' w' l' brk,
    Next_body g w (locals_at pos mk gb) = (g', w', l', brk) /\
    search_frame g g' /\ lastDiscrep g' = lastDiscrep g /\
    doneFlag g' = doneFlag g /\
    (brk = true /\ l' = locals_at pos mk gb
     \/ brk = false /\
        exists mk' gb', l' = locals_at (S pos) mk' gb' /\
                        (mk' = mk \/ mk' = Z.of_nat pos + 1)).
Proof.
  intros Hpos. unfold Next_body.
  destruct (read_bit w) as [b1 w1]. destruct (read_bit w1) as [b2 w2].
  destruct (_ =? 3).
  - do 4 eexists. split; [reflexivity|]. split; [apply search_frame_refl|].
    split; [reflexivity|]. split; [reflexivity|]. left. auto.
  - destruct (locals_step pos mk gb Hpos) as [Hm Hnk]. cbv zeta in Hnk.
    cbn [loc_m loc_n loc_k loc_discrepMarker locals_at] in *.
    assert (Hmk : forall gbit : Z,
              (if gbit =? 0 then Z.of_nat pos + 1 else mk) = mk
              \/ (if gbit =? 0 then Z.of_nat pos + 1 else mk) = Z.of_nat pos + 1)
      by (intros gbit; destruct (gbit =? 0); auto).
    destruct (0 <? _).
    + rewrite Hm, Hnk.
      do 4 eexists. split; [reflexivity|].
      split; [|split; [|split]].
      4:{ right. split; [reflexivity|]. do 2 eexists. split; [reflexivity|]. auto. }
      all: destruct (_ =? 1); try reflexivity;
        apply search_frame_ROM; unfold set1; rewrite length_insert; reflexivity.
    + rewrite Hm, Hnk.
      do 4 eexists. split; [reflexivity|].
      split; [|split; [|split]].
      4:{ right. split; [reflexivity|]. do 2 eexists. split; [reflexivity|].
          apply Hmk. }
      all: destruct (_ =? 1); try reflexivity;
        apply search_frame_ROM; unfold set1; rewrite length_insert; reflexivity.
Qed.

Lemma Next_continue_frame n : forall pos fuel g (w : W) mk gb,
  (pos + n = 64)%nat -> (n <= fuel)%nat -> 0 <= mk <= Z.of_nat pos ->
  exists g' w' l',
    Next_continue fuel g w (locals_at pos mk gb) = Some (g', w', l') /\
    search_frame g g' /\ lastDiscrep g' = lastDiscrep g /\
    doneFlag g' = doneFlag g /\ 0 <= loc_discrepMarker l' <= 64.
Proof.
  induction n as [|n IH]; intros pos fuel g w mk gb Hpos Hfuel Hmk;
    unfold Next_continue; rewrite locals_n_lt.
  - replace (pos <? 64)%nat with false by (symmetry; apply Nat.ltb_ge; lia).
    do 3 eexists. split; [reflexivity|]. split; [apply search_frame_refl|].
    cbn [loc_discrepMarker locals_at]. repeat split; lia.
  - replace (pos <? 64)%nat with true by (symmetry; apply Nat.ltb_lt; lia).
    destruct fuel as [|fuel]; [lia|]. cbn [Next_loop].
    destruct (Next_body_frame g w pos mk gb ltac:(lia))
      as (g1 & w1 & l1 & brk & -> & Hf & HL & HD & Hc).
    destruct Hc as [(-> & ->) | (-> & mk' & gb' & -> & Hmk')].
    + do 3 eexists. split; [reflexivity|]. split; [exact Hf|].
      cbn [loc_discrepMarker locals_at]. repeat split; try assumption; lia.
    + destruct (IH (S pos) fuel g1 w1 mk' gb' ltac:(lia) ltac:(lia) ltac:(lia))
        as (g2 & w2 & l2 & Hrun & Hf2 & HL2 & HD2 & Hm2).
      unfold Next_continue in Hrun. rewrite Hrun.
      do 3 eexists. split; [reflexivity|].
      split; [eapply search_frame_trans; eassumption|].
      repeat split; try congruence; lia.
Qed.

(** The two ways a call of [Next] can end. *)
Lemma Next_result g (w : W) :
  exists nxt g' w',
    Next g w = Some (nxt, g', w') /\ search_frame g g' /\
    (nxt = 0 /\ lastDiscrep g' = 0 /\ doneFlag g' = doneFlag g
     \/ nxt = 1 /\ doneFlag g = 0 /\ 0 <= lastDiscrep g' <= 64 /\
        doneFlag g' = c_bool (lastDiscrep g' =? 0) /\
        dallas_crc8 (ROM g') 8 = past_ROM g').
Proof.
  unfold Next. destruct (reset_pulse w) as [r w1].
  destruct (Z.eqb_spec (doneFlag g) 0) as [Hdone|Hdone].
  2:{ rewrite orb_true_r. do 3 eexists. split; [reflexivity|].
      split; [exact (search_frame_refl g)|]. left. auto. }
  destruct (negb (r =? 0)); cbn [negb orb].
  { do 3 eexists. split; [reflexivity|].
    split; [exact (search_frame_refl g)|]. left. auto. }
  rewrite transmit_byte_eq, bind_Some, Next_loop_continue.
  destruct (Next_continue_frame 64 0 64 g (write_bits 240 w1) 0 0
              ltac:(lia) ltac:(lia) ltac:(lia))
    as (g1 & w2 & l1 & -> & Hf & HL & HD & Hm).
  rewrite bind_Some. cbv beta iota.
  destruct (loc_m l1 <? 65); cbn [orb].
  { do 3 eexists. split; [reflexivity|]. split; [exact Hf|]. left.
    repeat split. exact HD. }
  destruct (Z.eqb_spec (dallas_crc8 (ROM g1) 8) (past_ROM g1)) as [Hcrc|Hcrc];
    cbn [negb].
  - do 3 eexists. split; [reflexivity|]. split; [exact Hf|]. right.
    cbn [lastDiscrep doneFlag ROM past_ROM with_lastDiscrep with_doneFlag].
    rewrite u8_c_bool. repeat split; try assumption; lia.
  - do 3 eexists. split; [reflexivity|]. split; [exact Hf|]. left.
    repeat split. exact HD.
Qed.

(** A call returns 0 or 1 and keeps the frame, whatever byte [ROM[8]] reads. *)
Lemma Next_at_result (rom8 : Globals -> Z) g (w : W) :
  exists nxt g' w',
    Next_at rom8 g w = Some (nxt, g', w') /\ search_frame g g' /\
    (nxt = 0 \/ nxt = 1).
Proof.
  unfold Next_at. destruct (reset_pulse w) as [r w1].
  destruct (negb (r =? 0) || negb (doneFlag g =? 0)).
  { do 3 eexists. split; [reflexivity|].
    split; [exact (search_frame_refl g)|]. left. reflexivity. }
  rewrite transmit_byte_eq, bind_Some, Next_loop_continue.
  destruct (Next_continue_frame 64 0 64 g (write_bits 240 w1) 0 0
              ltac:(lia) ltac:(lia) ltac:(lia))
    as (g1 & w2 & l1 & -> & Hf & HL & HD & Hm).
  rewrite bind_Some. cbv beta iota.
  destruct ((loc_m l1 <? 65) || negb (dallas_crc8 (ROM g1) 8 =? rom8 g1)).
  - do 3 eexists. split; [reflexivity|]. split; [exact Hf|]. left. reflexivity.
  - do 3 eexists. split; [reflexivity|]. split; [exact Hf|]. right. reflexivity.
Qed.

(** X3: for every behaviour of the bus a call of [Next] returns, and changes
    nothing but [ROM], [lastDiscrep] and [doneFlag].  When it returns 0,
    [lastDiscrep] is 0 and [doneFlag] is as before; when it returns 1, the
    search was not done before, [lastDiscrep] is between 0 and 64,
    [doneFlag] is set exactly when [lastDiscrep] is 0, and the CRC of [ROM]
    equals the byte it was compared with. *)
Theorem Next_outcome g (w : W) :
  exists nxt g' w',
    Next g w = Some (nxt, g', w') /\ search_frame g g' /\
    (nxt = 0 /\ lastDiscrep g' = 0 /\ doneFlag g' = doneFlag g
     \/ nxt = 1 /\ doneFlag g = 0 /\ 0 <= lastDiscrep g' <= 64 /\
        doneFlag g' = c_bool (lastDiscrep g' =? 0) /\
        dallas_crc8 (ROM g') 8 = past_ROM g').
Proof. exact (Next_result g w). Qed.
End SearchAnyBus.

(** * [FindDevices] for every behaviour of the bus *)

Lemma set2_length a r c v : length (set2 a r c v) = length a.
Proof. unfold set2. apply length_insert. Qed.

Lemma store_fold_low ms : forall g,
  numROMs g < 5 ->
  exists F,
    foldl (fun g m => store_FoundROM (numROMs g) m (get1 (ROM g) m) g) g ms
    = with_FoundROM F g /\
    length F = length (FoundROM g) /\
    forall i, i <> Z.to_nat (numROMs g) -> F !! i = FoundROM g !! i.
Proof.
  induction ms as [|m ms IH]; intros g Hr.
  - exists (FoundROM g). split; [destruct g; reflexivity|]. auto.
  - cbn [foldl]. unfold store_FoundROM at 2.
    replace (numROMs g <? 5) with true by (symmetry; apply Z.ltb_lt; exact Hr).
    destruct (IH (with_FoundROM (set2 (FoundROM g) (numROMs g) m
                                      (get1 (ROM g) m)) g) Hr)
      as (F & HF & Hlen & Hrows).
    exists F. split; [rewrite HF; reflexivity|].
    cbn [FoundROM with_FoundROM numROMs] in Hlen, Hrows.
    split; [rewrite Hlen; apply set2_length|].
    intros i Hi. rewrite (Hrows i Hi). apply set2_other, Hi.
Qed.

Lemma store_fold_high ms : forall g,
  5 <= numROMs g ->
  foldl (fun g m => store_FoundROM (numROMs g) m (get1 (ROM g) m) g) g ms
  = with_FoundROM_overrun
      (FoundROM_overrun g ++ map (fun m => (numROMs g, m, get1 (ROM g) m)) ms) g.
Proof.
  induction ms as [|m ms IH]; intros g Hr.
  - cbn [foldl map]. rewrite app_nil_r. destruct g; reflexivity.
  - cbn [foldl map]. unfold store_FoundROM at 2.
    replace (numROMs g <? 5) with false by (symmetry; apply Z.ltb_ge; exact Hr).
    rewrite IH by exact Hr.
    cbn [FoundROM_overrun with_FoundROM_overrun numROMs ROM].
    rewrite <- app_assoc. reflexivity.
Qed.

(** Counting and copying, for any count. *)
Lemma stored_cases g :
  numROMs (stored g) = numROMs g + 1 /\ ROM (stored g) = ROM g /\
  past_ROM (stored g) = past_ROM g /\ lastDiscrep (stored g) = lastDiscrep g /\
  doneFlag (stored g) = doneFlag g /\
  DS18B20_scratch (stored g) = DS18B20_scratch g /\
  OctetArray (stored g) = OctetArray g /\
  length (FoundROM (stored g)) = length (FoundROM g) /\
  (forall i, i <> Z.to_nat (numROMs g + 1) ->
             FoundROM (stored g) !! i = FoundROM g !! i) /\
  (numROMs g + 1 < 5 -> FoundROM_overrun (stored g) = FoundROM_overrun g) /\
  (5 <= numROMs g + 1 ->
   FoundROM_overrun (stored g)
   = FoundROM_overrun g ++ overrun_row (numROMs g + 1) (ROM g)).
Proof.
  unfold stored. destruct (Z_lt_le_dec (numROMs g + 1) 5) as [Hlo|Hhi].
  - destruct (store_fold_low (seqZ 0 8) (with_numROMs (numROMs g + 1) g) Hlo)
      as (F & -> & Hlen & Hrows).
    cbn [numROMs ROM past_ROM lastDiscrep doneFlag DS18B20_scratch OctetArray
         FoundROM FoundROM_overrun with_FoundROM with_numROMs] in *.
    repeat split; try assumption; try reflexivity. intros; lia.
  - rewrite store_fold_high by exact Hhi.
    cbn [numROMs ROM past_ROM lastDiscrep doneFlag DS18B20_scratch OctetArray
         FoundROM FoundROM_overrun with_FoundROM_overrun with_numROMs].
    repeat split; try reflexivity. intros; lia.
Qed.

Section TableAnyBus.
Context {W : Type} `{Port W}.

Variable rom8 : Globals -> Z.

Lemma FindDevices_loop_at_unfold fuel g (w : W) :
  FindDevices_loop_at rom8 (S fuel) g w =
    Next_at rom8 (stored g) w
    ≫= fun r => if negb (r.1.1 =? 0) && (numROMs r.1.2 <? 5)
                then FindDevices_loop_at rom8 fuel r.1.2 r.2
                else Some (r.1.2, r.2).
Proof.
  cbn [FindDevices_loop_at]. unfold stored.
  destruct (Next_at rom8 _ w) as [[[nxt g'] w']|]; reflexivity.
Qed.

Lemma First_at_eq g (w : W) :
  First_at rom8 g w = Next_at rom8 (with_doneFlag 0 (with_lastDiscrep 0 g)) w.
Proof. reflexivity. Qed.

Lemma table_frame_trans g1 g2 g3 :
  table_frame g1 g2 -> table_frame g2 g3 -> numROMs g2 < 5 ->
  numROMs g2 <= numROMs g3 -> table_frame g1 g3.
Proof.
  intros (A1 & A2 & A3 & A4 & A5 & A6 & A7) (B1 & B2 & B3 & B4 & B5 & B6 & B7)
         H2 H23.
  split; [congruence|]. split; [congruence|]. split; [congruence|].
  split; [congruence|].
  split; [intros Hl; rewrite (B5 Hl); apply A5; lia|].
  split.
  - intros H5. destruct (B6 H5) as [rom Hrom]. exists rom.
    rewrite Hrom, A5 by lia. reflexivity.
  - intros i Hi. rewrite B7 by lia. apply A7. lia.
Qed.

Lemma FindDevices_loop_at_any fuel : forall g (w : W),
  -1 <= numROMs g <= 4 -> (Z.to_nat (5 - numROMs g) <= fuel)%nat ->
  exists g' w',
    FindDevices_loop_at rom8 fuel g w = Some (g', w') /\
    numROMs g < numROMs g' <= 5 /\ table_frame g g'.
Proof.
  induction fuel as [|fuel IH]; intros g w Hk Hfuel; [lia|].
  rewrite FindDevices_loop_at_unfold.
  destruct (stored_cases g)
    as (Hn & HR & HP & HL & HD & HS & HO & HlenF & Hrows & Hov & Hov5).
  destruct (Next_at_result rom8 (stored g) w)
    as (nxt & g1 & w1 & -> & (Fp & FF & Fo & Fn & Fs & Fa & Fl) & Hout).
  rewrite bind_Some. cbn [fst snd].
  assert (Hframe1 : table_frame g g1).
  { split; [congruence|]. split; [congruence|]. split; [congruence|].
    split; [congruence|]. split; [intros; rewrite Fo; apply Hov; lia|].
    split.
    - intros H5. exists (ROM g). rewrite Fo, Hov5 by lia.
      replace (numROMs g + 1) with 5 by lia. reflexivity.
    - intros i Hi. rewrite FF. apply Hrows. lia. }
  destruct (negb (nxt =? 0) && (numROMs g1 <? 5)) eqn:Hgo.
  - apply andb_true_iff in Hgo as [Hnz Hlt]. apply Z.ltb_lt in Hlt.
    destruct (IH g1 w1 ltac:(lia) ltac:(lia))
      as (g2 & w2 & Hrun & Hnum2 & Hf2).
    exists g2, w2. split; [exact Hrun|]. split; [lia|].
    apply (table_frame_trans g g1 g2 Hframe1 Hf2); lia.
  - exists g1, w1. split; [reflexivity|]. split; [lia|exact Hframe1].
Qed.

(** The run as a whole. *)
Lemma FindDevices_at_any g (w : W) :
  exists g' w',
    FindDevices_at rom8 g w = Some (g', w') /\ -1 <= numROMs g' <= 5 /\
    table_frame g g'.
Proof.
  unfold FindDevices_at. destruct (reset_pulse w) as [r w0].
  assert (Hf0 : forall g0, search_frame (with_numROMs (-1) g) g0 ->
                numROMs g0 = -1 -> table_frame g g0).
  { intros g0 (Fp & FF & Fo & Fn & Fs & Fa & Fl) Hn.
    split; [exact Fp|]. split; [exact Fs|]. split; [exact Fa|].
    split; [rewrite FF; reflexivity|]. split; [intros; exact Fo|].
    split; [intros; lia|]. intros i _. rewrite FF. reflexivity. }
  destruct (r =? 0).
  2:{ exists (with_numROMs (-1) g), w0. split; [reflexivity|].
      split; [cbn; lia|]. apply Hf0; [apply search_frame_refl|reflexivity]. }
  rewrite First_at_eq.
  destruct (Next_at_result rom8
              (with_doneFlag 0 (with_lastDiscrep 0 (with_numROMs (-1) g))) w0)
    as (nxt & g1 & w1 & -> & Hfr & Hout).
  rewrite bind_Some. cbv beta iota.
  pose proof Hfr as (Fp & FF & Fo & Fn & Fs & Fa & Fl).
  cbn [numROMs past_ROM FoundROM FoundROM_overrun DS18B20_scratch OctetArray ROM
       with_doneFlag with_lastDiscrep with_numROMs] in Fp, FF, Fo, Fn, Fs, Fa, Fl.
  destruct (negb (nxt =? 0)).
  - destruct (FindDevices_loop_at_any 6 g1 w1 ltac:(lia)
                ltac:(rewrite Fn; cbn; lia))
      as (g2 & w2 & -> & Hnum & Hf2).
    exists g2, w2. split; [reflexivity|]. split; [lia|].
    apply (table_frame_trans g g1 g2 (Hf0 g1 Hfr Fn) Hf2); lia.
  - exists g1, w1. split; [reflexivity|]. split; [lia|].
    apply Hf0; [exact Hfr|exact Fn].
Qed.

(** X4: for every behaviour of the bus and every placement of the byte that
    [ROM[8]] reads, a run of [FindDevices] either makes no store behind the
    table, and then returns with [numROMs] between -1 and 4, with
    [DS18B20_scratch], [OctetArray] and the size of the table as they were
    and with the rows above [numROMs] as they were; or its first store
    behind the table is the one to [FoundROM[5][0]]. *)
Theorem FindDevices_bounds g (w : W) :
  exists g' w',
    FindDevices_at rom8 g w = Some (g', w') /\
    (FoundROM_overrun g' = FoundROM_overrun g /\
     -1 <= numROMs g' <= 4 /\
     DS18B20_scratch g' = DS18B20_scratch g /\ OctetArray g' = OctetArray g /\
     length (FoundROM g') = length (FoundROM g) /\
     (forall i : nat, numROMs g' < Z.of_nat i ->
                      FoundROM g' !! i = FoundROM g !! i)
     \/ exists v rest,
          FoundROM_overrun g' = FoundROM_overrun g ++ (5, 0, v) :: rest).
Proof.
  destruct (FindDevices_at_any g w)
    as (g' & w' & Hrun & Hnum & (A1 & A2 & A3 & A4 & A5 & A6 & A7)).
  exists g', w'. split; [exact Hrun|].
  destruct (Z.eq_dec (numROMs g') 5) as [H5|H5].
  - right. destruct (A6 H5) as [rom Hrom]. rewrite Hrom.
    exists (get1 rom 0), (map (fun m => (5, m, get1 rom m)) (seqZ 1 7)).
    reflexivity.
  - left. split; [apply A5; lia|]. split; [lia|]. split; [exact A2|].
    split; [exact A3|]. split; [exact A4|exact A7].
Qed.
End TableAnyBus.

(** * The sampling pass for every behaviour of the bus *)

Section SamplingAnyBus.
Context {W : Type} `{Port W}.

Lemma read_scratch_loop_length fuel : forall dn i j g (w : W) g' w',
  read_scratch_loop fuel dn i j g w = Some (g', w') ->
  length (DS18B20_scratch g') = length (DS18B20_scratch g).
Proof.
  induction fuel as [|fuel IH]; intros dn i j g w g' w' Hrun; [discriminate|].
  cbn [read_scratch_loop] in Hrun. destruct (read_bit w) as [b wb].
  destruct (b =? 1); destruct (j =? 128);
    try (injection Hrun as <- <-; apply set2_length);
    apply IH in Hrun; rewrite Hrun; apply set2_length.
Qed.

Lemma read_sample_length dn g (w : W) g' w' :
  read_sample dn g w = Some (g', w') ->
  length (DS18B20_scratch g') = length (DS18B20_scratch g).
Proof.
  unfold read_sample.
  destruct (read_scratch_loop 8 dn 0 1 g w) as [[g3 w3]|] eqn:E3; [|discriminate].
  intros E4. apply read_scratch_loop_length in E3, E4. congruence.
Qed.

(** A turn changes at most the sample of its own slot, and only when the
    slot is in use. *)
Lemma get_temperature_body_rows dn g (w : W) go g' w' :
  get_temperature_body dn g w = Some (go, g', w') ->
  same_search g g' /\
  length (DS18B20_scratch g') = length (DS18B20_scratch g) /\
  forall r, (r <> Z.to_nat dn \/ numROMs g < dn) ->
            DS18B20_scratch g' !! r = DS18B20_scratch g !! r.
Proof.
  rewrite get_temperature_body_eq.
  destruct (negb _).
  { intros [= <- <- <-]. split; [apply same_search_refl|]. auto. }
  destruct (Z.leb_spec dn (numROMs g)) as [Hle|Hgt].
  2:{ intros [= <- <- <-]. split; [apply same_search_refl|]. auto. }
  destruct (read_sample dn g _) as [[g3 w3]|] eqn:E3; [|discriminate].
  intros [= <- <- <-].
  pose proof (read_sample_length _ _ _ _ _ E3) as Hlen.
  apply read_sample_spec in E3 as [Hs3 Hr3].
  split; [exact Hs3|]. split; [exact Hlen|].
  intros r [Hr|Hr]; [apply Hr3, Hr|lia].
Qed.

Lemma get_temperature_loop_any n : forall (d : nat) fuel g (w : W),
  (d + n = 5)%nat -> (n <= fuel)%nat ->
  exists g' w',
    get_temperature_loop fuel (Z.of_nat d) g w = Some (g', w') /\
    same_search g g' /\
    length (DS18B20_scratch g') = length (DS18B20_scratch g) /\
    forall r : nat, (numROMs g < Z.of_nat r \/ (r < d)%nat) ->
                    DS18B20_scratch g' !! r = DS18B20_scratch g !! r.
Proof.
  induction n as [|n IH]; intros d fuel g w Hd Hfuel.
  - replace d with 5%nat by lia.
    exists g, w. split; [destruct fuel; reflexivity|].
    split; [apply same_search_refl|]. auto.
  - destruct fuel as [|fuel]; [lia|]. cbn [get_temperature_loop].
    replace (Z.of_nat d <? 5) with true by (symmetry; apply Z.ltb_lt; lia).
    destruct (get_temperature_body_total (Z.of_nat d) g w) as [[[go g1] w1] Hb].
    rewrite Hb, bind_Some. cbv beta iota.
    apply get_temperature_body_rows in Hb as (Hs1 & Hl1 & Hr1).
    assert (Hrows1 : forall r : nat, (numROMs g < Z.of_nat r \/ (r < d)%nat) ->
                       DS18B20_scratch g1 !! r = DS18B20_scratch g !! r).
    { intros r Hr. apply Hr1. rewrite Nat2Z.id. lia. }
    destruct go.
    + replace (u8 (Z.of_nat d + 1)) with (Z.of_nat (S d))
        by (unfold u8; rewrite Z.mod_small; lia).
      destruct (IH (S d) fuel g1 w1 ltac:(lia) ltac:(lia))
        as (g2 & w2 & -> & Hs2 & Hl2 & Hr2).
      exists g2, w2. split; [reflexivity|].
      split; [eapply same_search_trans; eassumption|]. split; [congruence|].
      intros r Hr. rewrite Hr2.
      * apply Hrows1, Hr.
      * destruct Hs1 as (_ & _ & _ & _ & _ & _ & Hn & _). rewrite Hn. lia.
    + exists g1, w1. split; [reflexivity|]. split; [exact Hs1|].
      split; [exact Hl1|exact Hrows1].
Qed.

(** X6: the sampling pass returns for every bus, leaves the search state,
    the table and [OctetArray] as they are, and leaves the samples of the
    slots above [numROMs] as they are. *)
Theorem get_temperature_frame g (w : W) :
  exists g' w',
    get_temperature g w = Some (g', w') /\ same_search g g' /\
    length (DS18B20_scratch g') = length (DS18B20_scratch g) /\
    forall r : nat, numROMs g < Z.of_nat r ->
                    DS18B20_scratch g' !! r = DS18B20_scratch g !! r.
Proof.
  destruct (get_temperature_loop_any 5 0 5 g w ltac:(lia) ltac:(lia))
    as (g' & w' & Hrun & Hs & Hl & Hr).
  exists g', w'. split; [exact Hrun|]. split; [exact Hs|]. split; [exact Hl|].
  intros r Hlt. apply Hr. left. exact Hlt.
Qed.

End SamplingAnyBus.


(** * Clocking a scratchpad byte in *)

Section BitsAnyBus.
Context {W : Type} `{Port W}.

Lemma set2_set2 a r c v v' : set2 (set2 a r c v) r c v' = set2 a r c v'.
Proof.
  unfold set2, set1.
  destruct (a !! Z.to_nat r) as [row|] eqn:Hr.
  - rewrite list_lookup_insert_eq by (eapply lookup_lt_Some, Hr).
    cbn [default from_option id]. rewrite list_insert_insert_eq, list_insert_insert_eq.
    reflexivity.
  - pose proof (proj1 (lookup_ge_None _ _) Hr) as Hge.
    rewrite !list_insert_ge by (rewrite ?length_insert; lia).
    reflexivity.
Qed.

Lemma get2_set2 a r c v row :
  a !! Z.to_nat r = Some row -> (Z.to_nat c < length row)%nat ->
  get2 (set2 a r c v) r c = v.
Proof.
  intros Hr Hc. unfold get2, set2, get1, set1.
  rewrite list_lookup_insert_eq by (eapply lookup_lt_Some, Hr).
  rewrite Hr. cbn [default from_option id]. rewrite list_lookup_insert_eq by exact Hc.
  reflexivity.
Qed.

Lemma set2_lookup a r c v row :
  a !! Z.to_nat r = Some row ->
  set2 a r c v !! Z.to_nat r = Some (set1 row c v).
Proof.
  intros Hr. unfold set2. rewrite Hr. cbn [default from_option id].
  apply list_lookup_insert_eq. eapply lookup_lt_Some, Hr.
Qed.

Lemma read_bits_S n (w : W) :
  read_bits (S n) w
  = ((read_bit w).1 :: (read_bits n (read_bit w).2).1,
     (read_bits n (read_bit w).2).2).
Proof.
  cbn [read_bits]. destruct (read_bit w) as [b wb]. cbn [fst snd].
  destruct (read_bits n wb). reflexivity.
Qed.

(** The loop from bit [k] on is [assemble] on the bits read. *)
Lemma read_scratch_loop_assemble n : forall k fuel dn i g (w : W) row,
  (k + S n = 8)%nat -> (n < fuel)%nat ->
  DS18B20_scratch g !! Z.to_nat dn = Some row -> (Z.to_nat i < length row)%nat ->
  read_scratch_loop fuel dn i (2 ^ Z.of_nat k) g w
  = Some (with_scratch
            (set2 (DS18B20_scratch g) dn i
                  (assemble (2 ^ Z.of_nat k) (get2 (DS18B20_scratch g) dn i)
                            (fst (read_bits (S n) w)))) g,
          snd (read_bits (S n) w)).
Proof.
  induction n as [|n IH]; intros k fuel dn i g w row Hk Hfuel Hrow Hi;
    (destruct fuel as [|fuel]; [lia|]); cbn [read_scratch_loop];
    rewrite (read_bits_S _ w); destruct (read_bit w) as [b wb]; cbn [fst snd].
  - replace k with 7%nat by lia. change (2 ^ Z.of_nat 7 =? 128) with true.
    cbn [read_bits fst snd assemble]. destruct (b =? 1); reflexivity.
  - destruct (mask_shift k ltac:(lia)) as [Hne Hsh]. rewrite Hne.
    cbn [assemble]. rewrite Hsh.
    destruct (b =? 1).
    + rewrite (IH (S k) fuel dn i _ wb (set1 row i
                 (Z.lor (get2 (DS18B20_scratch g) dn i) (2 ^ Z.of_nat k))));
        try lia.
      * cbn [DS18B20_scratch with_scratch].
        rewrite set2_set2, (get2_set2 _ _ _ _ row Hrow Hi). reflexivity.
      * cbn [DS18B20_scratch with_scratch]. apply set2_lookup, Hrow.
      * unfold set1. rewrite length_insert. exact Hi.
    + rewrite (IH (S k) fuel dn i _ wb (set1 row i
                 (Z.land (get2 (DS18B20_scratch g) dn i)
                         (u8 (Z.lnot (2 ^ Z.of_nat k))))));
        try lia.
      * cbn [DS18B20_scratch with_scratch].
        rewrite set2_set2, (get2_set2 _ _ _ _ row Hrow Hi). reflexivity.
      * cbn [DS18B20_scratch with_scratch]. apply set2_lookup, Hrow.
      * unfold set1. rewrite length_insert. exact Hi.
Qed.
End BitsAnyBus.

Lemma assemble_bits j old bs :
  assemble j old bs = assemble j old (map (fun b => c_bool (b =? 1)) bs).
Proof.
  revert j old. induction bs as [|b bs IH]; intros j old; [reflexivity|].
  cbn [assemble map]. rewrite c_bool_eqb_1. apply IH.
Qed.

Lemma byte_of_bits_range bs :
  length bs = 8%nat -> 0 <= byte_of_bits bs < 256.
Proof.
  intros Hl. do 9 (destruct bs as [|? bs]; try discriminate Hl).
  cbn [byte_of_bits].
  repeat match goal with |- context [?b =? 1] => destruct (b =? 1) end;
    cbn [c_bool]; lia.
Qed.

Lemma bits_of_byte_of_bits bs :
  length bs = 8%nat ->
  map (fun b => c_bool (b =? 1)) bs = bits_of_byte (byte_of_bits bs).
Proof.
  intros Hl. do 9 (destruct bs as [|? bs]; try discriminate Hl).
  cbn [byte_of_bits map].
  repeat match goal with |- context [?b =? 1] => destruct (b =? 1) end;
    reflexivity.
Qed.

Lemma assemble_byte old x :
  0 <= old < 256 -> 0 <= x < 256 -> assemble 1 old (bits_of_byte x) = x.
Proof.
  intros Ho Hx. apply Z.eqb_eq.
  exact (forall_bytes2 (fun old x => assemble 1 old (bits_of_byte x) =? x)
                       ltac:(vm_compute; reflexivity) old x Ho Hx).
Qed.

(** Eight read slots make one byte. *)
Lemma read_scratch_loop_bits {W} `{Port W} dn i g (w : W) row :
  DS18B20_scratch g !! Z.to_nat dn = Some row -> (Z.to_nat i < length row)%nat ->
  0 <= get2 (DS18B20_scratch g) dn i < 256 ->
  read_scratch_loop 8 dn i 0x01 g w
  = Some (with_scratch
            (set2 (DS18B20_scratch g) dn i (byte_of_bits (fst (read_bits 8 w)))) g,
          snd (read_bits 8 w)).
Proof.
  intros Hrow Hi Hold.
  pose proof (read_scratch_loop_assemble 7 0 8 dn i g w row
                eq_refl ltac:(lia) Hrow Hi) as Hrun.
  change (2 ^ Z.of_nat 0) with 1 in Hrun. rewrite Hrun. clear Hrun.
  assert (Hlen : forall n (w0 : W), length (fst (read_bits n w0)) = n).
  { induction n as [|n IH]; intros w0; [reflexivity|]. cbn [read_bits].
    destruct (read_bit w0) as [b wb]. specialize (IH wb).
    destruct (read_bits n wb). cbn [fst length] in *. congruence. }
  rewrite assemble_bits, bits_of_byte_of_bits by apply Hlen.
  rewrite assemble_byte; [reflexivity|exact Hold|].
  apply byte_of_bits_range, Hlen.
Qed.

(** X8: the loop that clocks a scratchpad byte in returns after eight read
    slots and replaces the whole byte by the bits read, the first bit
    read being the least significant; nothing of the old byte is left. *)
Theorem read_scratch_loop_byte {W} `{Port W} dn i g (w : W) row :
  DS18B20_scratch g !! Z.to_nat dn = Some row -> (Z.to_nat i < length row)%nat ->
  0 <= get2 (DS18B20_scratch g) dn i < 256 ->
  read_scratch_loop 8 dn i 0x01 g w
  = Some (with_scratch
            (set2 (DS18B20_scratch g) dn i (byte_of_bits (fst (read_bits 8 w)))) g,
          snd (read_bits 8 w)).
Proof. apply read_scratch_loop_bits. Qed.

Lemma read_scratch_loop_byte_witness :
  read_scratch_loop 8 0 1 0x01 (globals_sample 0x55 0)
                    ([0; 0; 0; 0x40; 0; 0; 0x40; 0x40] : Script)
  = Some (with_scratch
            (set2 (DS18B20_scratch (globals_sample 0x55 0)) 0 1
               (byte_of_bits
                  (fst (read_bits 8 ([0; 0; 0; 0x40; 0; 0; 0x40; 0x40] : Script)))))
            (globals_sample 0x55 0),
          snd (read_bits 8 ([0; 0; 0; 0x40; 0; 0; 0x40; 0x40] : Script))).
Proof.
  apply (read_scratch_loop_byte (W := Script) (H := ScriptPort) 0 1
           (globals_sample 0x55 0) _ [0; 0x55]).
  - reflexivity.
  - cbn. lia.
  - vm_compute. split; [discriminate|reflexivity].
Defined.

(** * The formatter on the sensor's readings *)

Lemma forall_range (P : Z -> bool) lo len :
  forallb P (seqZ lo len) = true -> forall t, lo <= t < lo + len -> P t = true.
Proof.
  intros Hall t Ht. rewrite forallb_forall in Hall. apply Hall.
  apply list_elem_of_In, elem_of_seqZ. lia.
Qed.

(** X9: degrees C of a 12-bit reading t (in sixteenths): for t from 0 up
    the parts are a space, t / 16 and t mod 16; for negative t with a
    fraction they are '-', (-t) / 16 and (-t) mod 16; for negative t without
    a fraction the whole degrees come out as (-t) / 16 - 1, one short. *)
Theorem celsius_parts_reading t :
  -2048 <= t < 2048 ->
  celsius_parts (reading_msb t) (reading_lsb t)
  = if 0 <=? t then (chr " ", t / 16, t mod 16)
    else if t mod 16 =? 0 then (chr "-", (- t) / 16 - 1, 0)
    else (chr "-", (- t) / 16, (- t) mod 16).
Proof.
  intros Ht. apply parts_eqb_eq.
  exact (forall_range
    (fun t => parts_eqb (celsius_parts (reading_msb t) (reading_lsb t))
                (if 0 <=? t then (chr " ", t / 16, t mod 16)
                 else if t mod 16 =? 0 then (chr "-", (- t) / 16 - 1, 0)
                 else (chr "-", (- t) / 16, (- t) mod 16)))
    (-2048) 4096 ltac:(vm_compute; reflexivity) t ltac:(lia)).
Qed.

Lemma celsius_parts_reading_witness :
  celsius_parts (reading_msb (-162)) (reading_lsb (-162))
  = if 0 <=? -162 then (chr " ", -162 / 16, -162 mod 16)
    else if -162 mod 16 =? 0 then (chr "-", (- -162) / 16 - 1, 0)
    else (chr "-", (- -162) / 16, (- -162) mod 16).
Proof. apply celsius_parts_reading. lia. Defined.

(** X10: degrees F of a reading t from -55 degrees C (-880) up: the sign,
    whole degrees and nibble stand for the exact conversion 9/5 t + 32
    degrees, in sixteenths, rounded down. *)
Theorem fahrenheit_parts_reading t :
  -880 <= t < 2048 ->
  parts_value (fahrenheit_parts (reading_msb t) (reading_lsb t))
  = (9 * t + 2560) / 5.
Proof.
  intros Ht. apply Z.eqb_eq.
  exact (forall_range
    (fun t => parts_value (fahrenheit_parts (reading_msb t) (reading_lsb t))
              =? (9 * t + 2560) / 5)
    (-880) 2928 ltac:(vm_compute; reflexivity) t ltac:(lia)).
Qed.

Lemma fahrenheit_parts_reading_witness :
  parts_value (fahrenheit_parts (reading_msb (-291)) (reading_lsb (-291)))
  = (9 * -291 + 2560) / 5.
Proof. apply fahrenheit_parts_reading. lia. Defined.

(** The parts are in range for every sample. *)
Lemma parts_in_table msb lsb degCorF :
  0 <= msb < 256 -> 0 <= lsb < 256 ->
  let '(sign, whole_temp, decimal_temp) :=
    if degCorF =? 0 then celsius_parts msb lsb else fahrenheit_parts msb lsb in
  (sign = chr " " \/ sign = chr "-") /\ 0 <= whole_temp < 4096 /\
  0 <= decimal_temp < 16 /\
  get1 dec_temp decimal_temp = chr "0" + (10 * decimal_temp + 8) / 16.
Proof.
  intros Hm Hl.
  pose (ok := fun p : Z * Z * Z =>
          let '(sign, whole_temp, decimal_temp) := p in
          ((sign =? chr " ") || (sign =? chr "-"))
          && (0 <=? whole_temp) && (whole_temp <? 4096)
          && (0 <=? decimal_temp) && (decimal_temp <? 16)
          && (get1 dec_temp decimal_temp =? chr "0" + (10 * decimal_temp + 8) / 16)).
  assert (Hok : forall p, ok p = true ->
            let '(sign, whole_temp, decimal_temp) := p in
            (sign = chr " " \/ sign = chr "-") /\ 0 <= whole_temp < 4096 /\
            0 <= decimal_temp < 16 /\
            get1 dec_temp decimal_temp = chr "0" + (10 * decimal_temp + 8) / 16).
  { intros [[s wh] dc]. unfold ok.
    rewrite !andb_true_iff, orb_true_iff, !Z.eqb_eq, !Z.leb_le, !Z.ltb_lt.
    intuition lia. }
  apply Hok. destruct (degCorF =? 0).
  - exact (forall_bytes2 (fun m l => ok (celsius_parts m l))
                         ltac:(vm_compute; reflexivity) msb lsb Hm Hl).
  - exact (forall_bytes2 (fun m l => ok (fahrenheit_parts m l))
                         ltac:(vm_compute; reflexivity) msb lsb Hm Hl).
Qed.

(** X11: for all sample bytes and both units the sign is a space or '-',
    the whole degrees handed to [emb_itoa] are not negative, the index into
    [dec_temp] is within its sixteen entries, and the entry there is the
    digit of the nearest tenth (halves rounded up). *)
Theorem decimal_digit_in_table msb lsb degCorF :
  0 <= msb < 256 -> 0 <= lsb < 256 ->
  let '(sign, whole_temp, decimal_temp) :=
    if degCorF =? 0 then celsius_parts msb lsb else fahrenheit_parts msb lsb in
  (sign = chr " " \/ sign = chr "-") /\ 0 <= whole_temp < 4096 /\
  0 <= decimal_temp < 16 /\
  get1 dec_temp decimal_temp = chr "0" + (10 * decimal_temp + 8) / 16.
Proof. apply parts_in_table. Qed.

Lemma decimal_digit_in_table_witness :
  let '(sign, whole_temp, decimal_temp) :=
    if 1 =? 0 then celsius_parts 0xfe 0x6f else fahrenheit_parts 0xfe 0x6f in
  (sign = chr " " \/ sign = chr "-") /\ 0 <= whole_temp < 4096 /\
  0 <= decimal_temp < 16 /\
  get1 dec_temp decimal_temp = chr "0" + (10 * decimal_temp + 8) / 16.
Proof. apply (decimal_digit_in_table 0xfe 0x6f 1); lia. Defined.

(** X12: for every 12-bit reading the whole degrees fit the three digits
    asked of [emb_itoa]: at most 127 in degrees C and 262 in degrees F. *)
Theorem whole_degrees_three_digits t :
  -2048 <= t < 2048 ->
  0 <= (celsius_parts (reading_msb t) (reading_lsb t)).1.2 <= 127 /\
  0 <= (fahrenheit_parts (reading_msb t) (reading_lsb t)).1.2 <= 262.
Proof.
  intros Ht.
  pose proof (forall_range
    (fun t => (0 <=? (celsius_parts (reading_msb t) (reading_lsb t)).1.2)
              && ((celsius_parts (reading_msb t) (reading_lsb t)).1.2 <=? 127)
              && (0 <=? (fahrenheit_parts (reading_msb t) (reading_lsb t)).1.2)
              && ((fahrenheit_parts (reading_msb t) (reading_lsb t)).1.2 <=? 262))
    (-2048) 4096 ltac:(vm_compute; reflexivity) t ltac:(lia)) as Hall.
  cbv beta in Hall. rewrite !andb_true_iff, !Z.leb_le in Hall. lia.
Qed.

Lemma whole_degrees_three_digits_witness :
  0 <= (celsius_parts (reading_msb 2000) (reading_lsb 2000)).1.2 <= 127 /\
  0 <= (fahrenheit_parts (reading_msb 2000) (reading_lsb 2000)).1.2 <= 262.
Proof. apply whole_degrees_three_digits. lia. Defined.

(** * The order of the table *)

Lemma agree_below_zeros pos P :
  agree_below pos P -> agree_below (S pos) (zeros_at pos P).
Proof.
  intros Ha d e Hd He i Hi.
  destruct (decide (i = pos)) as [->|Hne].
  - rewrite (zeros_at_bit _ _ _ Hd), (zeros_at_bit _ _ _ He). reflexivity.
  - apply Ha; [| |lia].
    + apply list_elem_of_In. apply list_elem_of_In in Hd.
      apply List.filter_In in Hd. apply Hd.
    + apply list_elem_of_In. apply list_elem_of_In in He.
      apply List.filter_In in He. apply He.
Qed.

Lemma agree_below_ones pos P :
  agree_below pos P -> agree_below (S pos) (ones_at pos P).
Proof.
  intros Ha d e Hd He i Hi.
  destruct (decide (i = pos)) as [->|Hne].
  - rewrite (ones_at_bit _ _ _ Hd), (ones_at_bit _ _ _ He). reflexivity.
  - apply Ha; [| |lia].
    + apply list_elem_of_In. apply list_elem_of_In in Hd.
      apply List.filter_In in Hd. apply Hd.
    + apply list_elem_of_In. apply list_elem_of_In in He.
      apply List.filter_In in He. apply He.
Qed.

Lemma search_order_fst_In n P (i : nat) d :
  (search_order n P).*1 !! i = Some d -> d ∈ P.
Proof.
  intros Hl. apply list_elem_of_lookup_2 in Hl.
  apply list_elem_of_fmap in Hl as ([d' mk] & -> & Hin).
  apply (search_order_In n P d' mk Hin).
Qed.

(** The visiting order is increasing. *)
Lemma search_order_increasing n : forall P,
  (n <= 64)%nat -> agree_below (64 - n) P ->
  forall (i j : nat) di dj,
    (i < j)%nat ->
    (search_order n P).*1 !! i = Some di ->
    (search_order n P).*1 !! j = Some dj ->
    bit_lt di dj.
Proof.
  induction n as [|n IH]; intros P Hn Ha i j di dj Hij Hi Hj.
  - destruct P as [|d0 P]; cbn in Hi, Hj.
    + discriminate.
    + destruct j as [|j]; [lia|]. discriminate.
  - rewrite search_order_S in Hi, Hj. cbv zeta in Hi, Hj.
    assert (Hpos : (64 - n = S (63 - n))%nat) by lia.
    assert (Ha0 : agree_below (64 - n) (zeros_at (63 - n) P))
      by (rewrite Hpos; apply agree_below_zeros;
          replace (63 - n)%nat with (64 - S n)%nat by lia; exact Ha).
    assert (Ha1 : agree_below (64 - n) (ones_at (63 - n) P))
      by (rewrite Hpos; apply agree_below_ones;
          replace (63 - n)%nat with (64 - S n)%nat by lia; exact Ha).
    destruct (ones_at (63 - n) P) as [|o1 O] eqn:Hones.
    + apply (IH _ ltac:(lia) Ha0 i j di dj Hij Hi Hj).
    + rewrite <- Hones in *.
      rewrite fmap_app, fst_map_marker in Hi, Hj.
      apply lookup_app_Some in Hi as [Hi|[Hli Hi]];
        apply lookup_app_Some in Hj as [Hj|[Hlj Hj]].
      * apply (IH _ ltac:(lia) Ha0 i j di dj Hij Hi Hj).
      * (* [di] took the 0 branch, [dj] the 1 branch *)
        pose proof (search_order_fst_In _ _ _ _ Hi) as Hdi.
        pose proof (search_order_fst_In _ _ _ _ Hj) as Hdj.
        exists (63 - n)%nat. split; [lia|]. split.
        -- intros q Hq.
           apply (Ha di dj); [| |lia].
           ++ apply list_elem_of_In. apply list_elem_of_In in Hdi.
              apply List.filter_In in Hdi. apply Hdi.
           ++ apply list_elem_of_In. apply list_elem_of_In in Hdj.
              apply List.filter_In in Hdj. apply Hdj.
        -- split; [apply (zeros_at_bit _ _ _ Hdi)|apply (ones_at_bit _ _ _ Hdj)].
      * apply lookup_lt_Some in Hj. lia.
      * eapply (IH _ ltac:(lia) Ha1); [|exact Hi|exact Hj]. lia.
Qed.

Section FirstPass.
Context {W : Type} `{Port W}.

Lemma Next_at_eq rom8 g (w : W) :
  Next_at rom8 g w =
    if negb (fst (reset_pulse w) =? 0) || negb (doneFlag g =? 0)
    then Some (0, with_lastDiscrep 0 g, snd (reset_pulse w))
    else Next_finish_at rom8 <$>
           Next_continue 64 g (write_bits 0xF0 (snd (reset_pulse w)))
                         (locals_at 0 0 0).
Proof.
  unfold Next_at. destruct (reset_pulse w) as [r w1]. cbn [fst snd].
  destruct (_ || _); [reflexivity|].
  rewrite transmit_byte_eq, bind_Some, Next_loop_continue.
  destruct (Next_continue 64 g (write_bits 240 w1) (locals_at 0 0 0))
    as [[[g' w'] l']|]; [|reflexivity].
  rewrite bind_Some.
  cbn [fmap option_fmap option_map Next_finish_at].
  destruct (_ || _); reflexivity.
Qed.
End FirstPass.

(** The pass that [First_at] starts resolves the head of the visiting order. *)
Lemma First_at_sim rom8 g w ids p d mkd E :
  E = search_order 64 ids -> E !! 0%nat = Some (d, mkd) ->
  bus_at w ids p -> ids <> [] -> wf_id (ROM g) -> Forall wf_id ids ->
  exists w' gb,
    First_at rom8 g w
    = Some (Next_finish_at rom8
              (with_ROM d (with_doneFlag 0 (with_lastDiscrep 0 g)), w',
               locals_at 64 mkd gb)).
Proof.
  intros HE HE0 Hw Hids Hwf Hwfids.
  destruct (search_command_sim w ids p Hw) as (w1 & w2 & Hr & Htx & Hw2).
  assert (Hr0 : reset_pulse w = (0, w1))
    by (rewrite Hr; destruct ids; [congruence|reflexivity]).
  rewrite transmit_byte_eq in Htx. injection Htx as Htx.
  rewrite First_at_eq, Next_at_eq, Hr0. cbn [fst snd doneFlag with_doneFlag].
  change (negb (0 =? 0) || negb (0 =? 0)) with false. cbv iota.
  rewrite Htx.
  destruct (search_pass 64 0 64 ids
              (with_doneFlag 0 (with_lastDiscrep 0 g)) w2 0 0 ids d mkd)
    as (w' & gb' & Hpass & Hw'); try assumption; try lia.
  - left. split; [cbn; lia|]. rewrite <- HE. exact HE0.
  - assert (Hmk : (if mkd =? 0 then 0 else mkd) = mkd)
      by (destruct (Z.eqb_spec mkd 0); congruence).
    rewrite Hmk in Hpass. rewrite Hpass.
    cbn [fmap option_fmap option_map]. exists w', gb'. reflexivity.
Qed.

(** X13: on the simulated bus with distinct identifiers, whatever byte
    [ROM[8]] reads, the pass that [First] starts leaves in [ROM] an
    identifier of the bus, the one that is smallest when the 64 bits are
    compared from bit 0 of byte 0 upward; [First] returns 1 exactly when
    the CRC of that identifier equals the byte read, and 0 otherwise. *)
Theorem First_resolves_smallest (rom8 : Globals -> Z) ids g w p :
  ids <> [] -> NoDup ids -> Forall wf_id ids -> wf_id (ROM g) ->
  bus_at w ids p ->
  exists nxt g' w',
    First_at rom8 g w = Some (nxt, g', w') /\
    ROM g' ∈ ids /\
    (forall e, e ∈ ids -> e <> ROM g' -> bit_lt (ROM g') e) /\
    (nxt = 0 \/ nxt = 1) /\
    (nxt = 1 <->
     dallas_crc8 (ROM g') 8
     = rom8 (with_ROM (ROM g') (with_doneFlag 0 (with_lastDiscrep 0 g)))).
Proof.
  intros Hids Hnd Hwfids Hwf Hw.
  pose proof (search_order_all ids Hnd Hwfids) as Hperm.
  pose proof (search_order_increasing 64 ids ltac:(lia)
                ltac:(intros d e _ _ i Hi; lia)) as Hinc.
  pose proof (search_order_nonnil 64 ids Hids) as Hnn.
  pose proof (First_at_sim rom8 g w ids p) as Hsim.
  revert Hperm Hinc Hnn Hsim. generalize (eq_refl (search_order 64 ids)).
  generalize (search_order 64 ids) at 2 3 4 5 6. intros E HE Hperm Hinc Hnn Hsim.
  destruct E as [|[d mkd] E']; [contradiction|].
  destruct (Hsim d mkd _ (eq_sym HE) eq_refl Hw Hids Hwf Hwfids) as (w' & gb & Hrun).
  assert (Hd : d ∈ ids).
  { rewrite <- Hperm. cbn. apply elem_of_cons. left. reflexivity. }
  assert (Hmin : forall e, e ∈ ids -> e <> d -> bit_lt d e).
  { intros e He Hne. rewrite <- Hperm in He.
    apply list_elem_of_lookup_1 in He as [j Hj].
    destruct j as [|j]; [cbn in Hj; congruence|].
    apply (Hinc 0%nat (S j) d e); [lia|reflexivity|exact Hj]. }
  rewrite Hrun. clear Hrun Hsim.
  unfold Next_finish_at. cbn [loc_m loc_discrepMarker locals_at ROM with_ROM].
  change (Z.of_nat 64 + 1 <? 65) with false. cbn [orb].
  destruct (Z.eqb_spec (dallas_crc8 d 8)
              (rom8 (with_ROM d (with_doneFlag 0 (with_lastDiscrep 0 g)))))
    as [Hcrc|Hcrc]; cbn [negb].
  - do 3 eexists. split; [reflexivity|].
    cbn [ROM with_ROM with_doneFlag with_lastDiscrep].
    split; [exact Hd|]. split; [exact Hmin|]. split; [auto|].
    split; [intros _; exact Hcrc|reflexivity].
  - do 3 eexists. split; [reflexivity|].
    cbn [ROM with_ROM with_doneFlag with_lastDiscrep].
    split; [exact Hd|]. split; [exact Hmin|]. split; [auto|].
    split; [discriminate|contradiction].
Qed.

Lemma First_resolves_smallest_witness :
  exists nxt g' w',
    First_at lastDiscrep (globals_init 0) (sim_bus three_ids)
    = Some (nxt, g', w') /\
    ROM g' ∈ three_ids /\
    (forall e, e ∈ three_ids -> e <> ROM g' -> bit_lt (ROM g') e) /\
    (nxt = 0 \/ nxt = 1) /\
    (nxt = 1 <->
     dallas_crc8 (ROM g') 8
     = lastDiscrep (with_ROM (ROM g')
                      (with_doneFlag 0 (with_lastDiscrep 0 (globals_init 0))))).
Proof.
  apply (First_resolves_smallest lastDiscrep three_ids (globals_init 0)
           (sim_bus three_ids) Idle).
  - discriminate.
  - apply (bool_decide_unpack (NoDup three_ids)). vm_compute. reflexivity.
  - repeat (apply Forall_cons_2; [apply wf_id_bytes; vm_compute; reflexivity|]).
    apply Forall_nil_2.
  - apply wf_globals_init.
  - apply bus_at_sim_bus.
Defined.

(** * The bits of a byte on the wire *)

Lemma mask_test x (k : nat) :
  0 <= x -> (Z.land (2 ^ Z.of_nat k) x =? 0) = negb (Z.testbit x (Z.of_nat k)).
Proof.
  intros Hx. rewrite Z.land_comm.
  pose proof (land_mask_test x k Hx) as Ht.
  pose proof (Z.land_nonneg x (2 ^ Z.of_nat k)) as Hnn.
  destruct (Z.testbit x (Z.of_nat k)); cbn [negb].
  - apply Z.eqb_neq. apply Z.ltb_lt in Ht. lia.
  - apply Z.eqb_eq. apply Z.ltb_ge in Ht. lia.
Qed.

(** X14: [transmit_byte] ends after eight write slots, and slot k carries
    bit k of the value: the least significant bit goes first. *)
Theorem transmit_byte_lsb_first {W} `{Port W} v (w : W) :
  0 <= v ->
  transmit_byte v w
  = Some (foldl (fun w k => write_bit (c_bool (Z.testbit v k)) w) w (seqZ 0 8)).
Proof.
  intros Hv. rewrite transmit_byte_eq. unfold write_bits.
  change (seqZ 0 8) with (map Z.of_nat [0; 1; 2; 3; 4; 5; 6; 7]%nat).
  change [1; 2; 4; 8; 16; 32; 64; 128]
    with (map (fun k => 2 ^ Z.of_nat k) [0; 1; 2; 3; 4; 5; 6; 7]%nat).
  cbn [map foldl]. rewrite !mask_test by exact Hv.
  repeat match goal with
         | |- context [Z.testbit v ?k] => destruct (Z.testbit v k)
         end; reflexivity.
Qed.

Lemma transmit_byte_lsb_first_witness :
  transmit_byte 0xF0 (sim_bus [device_id 0x28 5 1])
  = Some (foldl (fun w k => write_bit (c_bool (Z.testbit 0xF0 k)) w)
                (sim_bus [device_id 0x28 5 1]) (seqZ 0 8)).
Proof. apply transmit_byte_lsb_first. lia. Defined.

(** * One turn of the sampling pass *)

Lemma insert_row_twice (a : list (list Z)) (r : nat) x y lo hi :
  a !! r = Some [x; y] ->
  set2 (set2 a (Z.of_nat r) 0 lo) (Z.of_nat r) 1 hi = <[r := [lo; hi]]> a.
Proof.
  intros Hr. unfold set2. rewrite !Nat2Z.id, Hr.
  rewrite list_lookup_insert_eq by (eapply lookup_lt_Some, Hr).
  cbn [default from_option id]. rewrite list_insert_insert_eq. reflexivity.
Qed.

(** X15: a turn for a device of the table, after a reset that was answered,
    stores the first two scratchpad bytes clocked in: the first in
    [DS18B20_scratch[device_num][0]], the second in [[1]]. *)
Theorem get_temperature_body_sample {W} `{Port W} (dn : nat) g (w : W) x y :
  fst (reset_pulse w) = 0 -> Z.of_nat dn <= numROMs g ->
  DS18B20_scratch g !! dn = Some [x; y] -> 0 <= x < 256 -> 0 <= y < 256 ->
  let w1 := write_bits 0xbe (match_rom g (Z.of_nat dn) (snd (reset_pulse w))) in
  let lo := byte_of_bits (fst (read_bits 8 w1)) in
  let hi := byte_of_bits (fst (read_bits 8 (snd (read_bits 8 w1)))) in
  exists w',
    get_temperature_body (Z.of_nat dn) g w
    = Some (true, with_scratch (<[dn := [lo; hi]]> (DS18B20_scratch g)) g, w').
Proof.
  intros Hr Hdn Hrow Hx Hy. cbv zeta.
  rewrite get_temperature_body_eq, Hr. change (negb (0 =? 0)) with false.
  cbv iota.
  replace (Z.of_nat dn <=? numROMs g) with true
    by (symmetry; apply Z.leb_le; exact Hdn).
  unfold read_sample.
  rewrite (read_scratch_loop_bits (Z.of_nat dn) 0 g _ [x; y]);
    [|rewrite Nat2Z.id; exact Hrow|cbn; lia
     |unfold get2, get1; rewrite Nat2Z.id, Hrow; exact Hx].
  rewrite (read_scratch_loop_bits (Z.of_nat dn) 1 _ _
             [byte_of_bits (fst (read_bits 8
                (write_bits 190 (match_rom g (Z.of_nat dn) (snd (reset_pulse w)))))); y]).
  - cbn [DS18B20_scratch with_scratch].
    rewrite (insert_row_twice _ dn x y _ _ Hrow).
    eexists. reflexivity.
  - cbn [DS18B20_scratch with_scratch].
    unfold set2. rewrite Nat2Z.id, Hrow. cbn [default from_option id].
    apply list_lookup_insert_eq. eapply lookup_lt_Some, Hrow.
  - cbn. lia.
  - cbn [DS18B20_scratch with_scratch].
    unfold get2, get1, set2, set1. rewrite Nat2Z.id, Hrow.
    rewrite list_lookup_insert_eq by (eapply lookup_lt_Some, Hrow).
    cbn [default from_option id]. exact Hy.
Qed.

Lemma get_temperature_body_sample_witness :
  let w : Script := sample_script [0; 0x40] in
  let g := globals_init 0 in
  let w1 := write_bits 0xbe (match_rom g (Z.of_nat 0) (snd (reset_pulse w))) in
  let lo := byte_of_bits (fst (read_bits 8 w1)) in
  let hi := byte_of_bits (fst (read_bits 8 (snd (read_bits 8 w1)))) in
  exists w',
    get_temperature_body (Z.of_nat 0) g w
    = Some (true, with_scratch (<[0%nat := [lo; hi]]> (DS18B20_scratch g)) g, w').
Proof.
  apply (get_temperature_body_sample (W := Script) (H := ScriptPort) 0
           (globals_init 0) (sample_script [0; 0x40]) 0 0).
  - reflexivity.
  - cbn. lia.
  - reflexivity.
  - lia.
  - lia.
Defined.

(** * The string the formatter leaves *)

Lemma c_string_strcpy dst s :
  Forall (fun c => c <> 0) s -> c_string (strcpy dst (s ++ [0])) = s.
Proof.
  intros Hs. unfold strcpy.
  assert (Hc : forall t, c_string (s ++ 0 :: t) = s).
  { induction Hs as [|c s Hc Hs IH]; intros t; [reflexivity|].
    cbn [app c_string].
    replace (c =? 0) with false by (symmetry; apply Z.eqb_neq; exact Hc).
    rewrite IH. reflexivity. }
  replace (s ++ [0]) with (s ++ 0 :: []) by reflexivity.
  rewrite Hc. rewrite <- app_assoc. cbn [app]. apply Hc.
Qed.

(** X16: for a sample that is not the sentinel, when [emb_itoa] leaves three
    characters at the head of [OctetArray], the string left there is the
    sign, these three characters, a point and one digit of the rounding
    table. *)
Theorem convert_temperature_string emb_itoa device_num degCorF g msb lsb
        sign whole_temp decimal_temp digits :
  get2 (DS18B20_scratch g) device_num 1 = msb ->
  get2 (DS18B20_scratch g) device_num 0 = lsb ->
  0 <= msb < 256 -> 0 <= lsb < 256 -> msb <> 0x55 ->
  (if degCorF =? 0 then celsius_parts msb lsb else fahrenheit_parts msb lsb)
  = (sign, whole_temp, decimal_temp) ->
  emb_itoa (u32 whole_temp) (OctetArray g) 10 3 = digits ->
  get1 digits 0 <> 0 -> get1 digits 1 <> 0 -> get1 digits 2 <> 0 ->
  c_string (OctetArray (convert_temperature emb_itoa device_num degCorF g))
  = [sign; get1 digits 0; get1 digits 1; get1 digits 2; chr ".";
     chr "0" + (10 * decimal_temp + 8) / 16].
Proof.
  intros Hmsb Hlsb Hm Hl Hs Hparts Hdigits H0 H1 H2.
  pose proof (parts_in_table msb lsb degCorF Hm Hl) as Hd.
  unfold convert_temperature. rewrite Hmsb, Hlsb.
  replace (msb =? 85) with false by (symmetry; apply Z.eqb_neq; exact Hs).
  cbn [negb]. rewrite Hparts in Hd |- *.
  destruct Hd as (Hsign & Hwh & Hdec & Htab).
  unfold build_string. cbn [OctetArray with_OctetArray].
  rewrite Htab, Hdigits.
  change [sign; get1 digits 0; get1 digits 1; get1 digits 2;
          chr "."; chr "0" + (10 * decimal_temp + 8) / 16; 0]
    with ([sign; get1 digits 0; get1 digits 1; get1 digits 2;
           chr "."; chr "0" + (10 * decimal_temp + 8) / 16] ++ [0]).
  apply c_string_strcpy.
  assert (Hdig : chr "0" + (10 * decimal_temp + 8) / 16 <> 0).
  { change (chr "0") with 48.
    pose proof (Z.div_pos (10 * decimal_temp + 8) 16 ltac:(lia) ltac:(lia)). lia. }
  assert (Hsg : sign <> 0) by (destruct Hsign as [-> | ->]; discriminate).
  assert (Hpt : chr "." <> 0) by discriminate.
  repeat (apply Forall_cons_2; [assumption|]). apply Forall_nil_2.
Qed.

Lemma convert_temperature_string_witness :
  c_string (OctetArray (convert_temperature itoa_digits 0 0
                          (globals_sample 0x01 0x91)))
  = map chr [" "; "0"; "2"; "5"; "."; "1"]%char.
Proof.
  apply (convert_temperature_string itoa_digits 0 0 (globals_sample 0x01 0x91)
           0x01 0x91 (chr " ") 25 1
           (itoa_digits 25 (OctetArray (globals_sample 0x01 0x91)) 10 3));
    try reflexivity; try lia; vm_compute; discriminate.
Defined.
